(** * Theme preferences: store, DOM application, cookie persistence, provider

    A shallow embedding of the theme-preference subsystem:
    - [lib/theme.ts]               the [ThemePreferences] value object,
    - [lib/theme-utils.ts]         DOM application and the cookie codec,
    - [lib/preferences-store.ts]   the publish/subscribe store,
    - [lib/preferences-provider.tsx] the hydrating provider and its hook.

    Browser objects the code talks to ([document.documentElement],
    [document.cookie]) are modelled as plain data; callbacks are small
    programs run by an explicit stack machine, so that re-entrant calls into
    the store from inside a listener behave as they do in the source. *)

From stdpp Require Import base list strings gmap.
From Stdlib Require Import ZArith Ascii.

(** ** lib/theme.ts *)

Module Theme.

Inductive ThemeMode := light | dark.

Inductive ThemePreset := default | brutalist | soft_pop | tangerine.

Record ThemePreferences := mkPrefs {
  mode : ThemeMode;
  preset : ThemePreset;
}.

Definition DEFAULT_THEME_PREFERENCES : ThemePreferences :=
  {| mode := light; preset := default |}.

(** The string each enumerated value is at run time. *)
Definition mode_str (m : ThemeMode) : string :=
  match m with light => "light" | dark => "dark" end.

Definition preset_str (p : ThemePreset) : string :=
  match p with
  | default => "default"
  | brutalist => "brutalist"
  | soft_pop => "soft-pop"
  | tangerine => "tangerine"
  end.

#[global] Instance ThemeMode_eq_dec : EqDecision ThemeMode.
Proof. solve_decision. Defined.

#[global] Instance ThemePreset_eq_dec : EqDecision ThemePreset.
Proof. solve_decision. Defined.

#[global] Instance ThemePreferences_eq_dec : EqDecision ThemePreferences.
Proof. solve_decision. Defined.

(** [Partial<ThemePreferences>]: each field present or not. *)
Record PartialPreferences := mkPartial {
  p_mode : option ThemeMode;
  p_preset : option ThemePreset;
}.

(** [{ ...state, ...newState }] *)
Definition spread (state : ThemePreferences) (newState : PartialPreferences)
  : ThemePreferences :=
  {| mode := match p_mode newState with Some m => m | None => mode state end;
     preset := match p_preset newState with
               | Some p => p
               | None => preset state
               end |}.

Definition full (p : ThemePreferences) : PartialPreferences :=
  {| p_mode := Some (mode p); p_preset := Some (preset p) |}.

End Theme.

Import Theme.

(** ** The root document element *)

Module Dom.

(** [document.documentElement]: its class list (a [DOMTokenList], an ordered
    set of tokens) and its attributes. *)
Record Element := mkElement {
  classList : list string;
  attributes : gmap string string;
}.

(** [classList.add(tok)]: appends the token unless it is already there. *)
Definition classList_add (tok : string) (e : Element) : Element :=
  {| classList := if decide (tok ∈ classList e) then classList e
                  else classList e ++ [tok];
     attributes := attributes e |}.

(** [classList.remove(tok)] *)
Definition classList_remove (tok : string) (e : Element) : Element :=
  {| classList := filter (λ t, t ≠ tok) (classList e);
     attributes := attributes e |}.

Definition classList_contains (tok : string) (e : Element) : bool :=
  bool_decide (tok ∈ classList e).

Definition setAttribute (name value : string) (e : Element) : Element :=
  {| classList := classList e;
     attributes := <[name := value]> (attributes e) |}.

Definition getAttribute (name : string) (e : Element) : option string :=
  attributes e !! name.

End Dom.

Import Dom.

(** ** lib/theme-utils.ts: applying a theme to the DOM *)

Definition updateThemeMode (m : ThemeMode) (html : Element) : Element :=
  match m with
  | dark => classList_add "dark" html
  | light => classList_remove "dark" html
  end.

Definition updateThemePreset (p : ThemePreset) (html : Element) : Element :=
  setAttribute "data-theme-preset" (preset_str p) html.

Definition updateTheme (preferences : ThemePreferences) (html : Element)
  : Element :=
  updateThemePreset (preset preferences)
    (updateThemeMode (mode preferences) html).

(** ** lib/theme-utils.ts: the cookie codec *)

Module Str.

(** [s.split(sep)] for a one-character separator. *)
Fixpoint split (sep : ascii) (s : string) : list string :=
  match s with
  | EmptyString => [EmptyString]
  | String c rest =>
      if decide (c = sep) then EmptyString :: split sep rest
      else match split sep rest with
           | seg :: segs => String c seg :: segs
           | [] => [String c EmptyString]
           end
  end.

(** [s.indexOf(needle)], with -1 when the needle does not occur. *)
Definition indexOf (needle s : string) : Z :=
  match String.index 0 needle s with
  | Some i => Z.of_nat i
  | None => (-1)%Z
  end.

(** [s.substring(a, b)]: the characters at positions [min a b] up to, not
    including, [max a b], cut at the end of the string. *)
Definition substring (a b : nat) (s : string) : string :=
  String.substring (a `min` b) ((a `max` b) - (a `min` b)) s.

(** [parts.join(sep)] *)
Fixpoint join (sep : string) (parts : list string) : string :=
  match parts with
  | [] => ""
  | [p] => p
  | p :: rest => p +:+ sep +:+ join sep rest
  end.

Fixpoint spaces (n : nat) : string :=
  match n with 0 => "" | S n => String " " (spaces n) end.

Definition has_char (c : ascii) (s : string) : bool :=
  bool_decide (c ∈ String.list_ascii_of_string s).

End Str.

(** The browser's cookie store behind [document.cookie], for one document:
    the cookies visible to the page, in the order the getter lists them
    (longer paths first, then older cookies first). A cookie is known by its
    name, domain and path together, so cookies of one name can stand side by
    side. *)
Module CookieJar.

Record Cookie := mkCookie {
  c_name : string;
  c_value : string;
  c_domain : string;  (* [""] for a host-only cookie *)
  c_path : string;
  c_expires : option Z;  (* [None] for a session cookie *)
}.

Definition pair_str (c : Cookie) : string := c_name c +:+ "=" +:+ c_value c.

(** Reading [document.cookie]: the [name=value] pairs joined by ["; "].
    The store holds the named cookies the document sees, in the order the
    getter lists them: longer paths first, and among paths of one length
    the older cookie first. *)
Definition header (jar : list Cookie) : string :=
  Str.join "; " (pair_str <$> jar).

(** Splits [name=value] at its first ['=']. *)
Fixpoint name_value (s : string) : string * string :=
  match s with
  | EmptyString => (EmptyString, EmptyString)
  | String c rest =>
      if decide (c = "="%char) then (EmptyString, rest)
      else let '(n, v) := name_value rest in (String c n, v)
  end.

(** The white space the browser strips around names and values: space and
    tab. *)
Definition is_wsp (c : ascii) : bool :=
  bool_decide (c = " "%char) || bool_decide (c = "009"%char).

Fixpoint trim_left (s : string) : string :=
  match s with
  | EmptyString => EmptyString
  | String c rest => if is_wsp c then trim_left rest else s
  end.

Fixpoint trim_right (s : string) : string :=
  match s with
  | EmptyString => EmptyString
  | String c rest =>
      match trim_right rest with
      | EmptyString => if is_wsp c then EmptyString else String c EmptyString
      | r => String c r
      end
  end.

Definition trim (s : string) : string := trim_right (trim_left s).

Definition lower (c : ascii) : ascii :=
  let n := nat_of_ascii c in
  if (65 <=? n) && (n <=? 90) then ascii_of_nat (n + 32) else c.

Fixpoint lowercase (s : string) : string :=
  match s with
  | EmptyString => EmptyString
  | String c rest => String (lower c) (lowercase rest)
  end.

(** The first segment of an assigned text: a name and a value, or, without
    ['='], a value with no name. *)
Definition pair_of (nv : string) : string * string :=
  if Str.has_char "=" nv then name_value nv else (EmptyString, nv).

(** One attribute segment, read into the path and the expiry so far. Of
    the attributes only [Path] and [Expires], the two this code writes,
    are read; [parseDate] is the browser's reading of a date, in
    milliseconds since the epoch. A path that does not start with ['/'] is
    the default path, taken to be ["/"]. *)
Definition read_attribute (parseDate : string → option Z)
    (scope : string * option Z) (seg : string) : string * option Z :=
  let '(n, v) := name_value seg in
  let n := lowercase (trim n) in
  let v := trim v in
  if decide (n = "path") then
    (if decide (String.get 0 v = Some "/"%char) then v else "/", scope.2)
  else if decide (n = "expires") then
    (scope.1, match parseDate v with Some t => Some t | None => scope.2 end)
  else scope.

(** The cookie an assigned text describes: host-only, with the path and
    expiry its attributes give. *)
Definition written (parseDate : string → option Z) (nv : string)
    (attrs : list string) : Cookie :=
  let '(n, v) := pair_of nv in
  let scope := foldl (read_attribute parseDate) ("/", None) attrs in
  {| c_name := trim n; c_value := trim v; c_domain := "";
     c_path := scope.1; c_expires := scope.2 |}.

Definition same_key (c c' : Cookie) : bool :=
  bool_decide (c_name c = c_name c' ∧ c_domain c = c_domain c'
               ∧ c_path c = c_path c').

(** A new cookie goes in front of the first cookie with a shorter path. *)
Fixpoint insert (c : Cookie) (jar : list Cookie) : list Cookie :=
  match jar with
  | [] => [c]
  | c' :: rest =>
      if String.length (c_path c') <? String.length (c_path c)
      then c :: c' :: rest
      else c' :: insert c rest
  end.

(** A cookie of the same name, domain and path is replaced where it
    stands; otherwise the cookie is new. *)
Definition store (c : Cookie) (jar : list Cookie) : list Cookie :=
  if existsb (same_key c) jar
  then (λ c', if same_key c c' then c else c') <$> jar
  else insert c jar.

Definition remove (c : Cookie) (jar : list Cookie) : list Cookie :=
  filter (λ c', same_key c c' = false) jar.

Definition expired (now : Z) (c : Cookie) : bool :=
  match c_expires c with
  | Some t => (t <=? now)%Z
  | None => false
  end.

(** Assigning to [document.cookie] at time [now]: the text up to the first
    [';'] is the [name=value] pair, the remaining segments are attributes.
    A cookie whose expiry has passed is removed, any other is stored. *)
Definition assign (parseDate : string → option Z) (now : Z) (text : string)
    (jar : list Cookie) : list Cookie :=
  match Str.split ";" text with
  | nv :: attrs =>
      let c := written parseDate nv attrs in
      if expired now c then remove c jar else store c jar
  | [] => jar
  end.

Fixpoint lookup (name : string) (jar : list Cookie) : option string :=
  match jar with
  | [] => None
  | c :: rest =>
      if decide (c_name c = name) then Some (c_value c) else lookup name rest
  end.

(** What the browser guarantees of a stored cookie: no [';'] in the name or
    the value, no ['='] in the name, and a name that does not start with a
    space. *)
Definition cookie_ok (c : Cookie) : bool :=
  negb (Str.has_char ";" (c_name c)) && negb (Str.has_char "=" (c_name c))
  && negb (Str.has_char ";" (c_value c))
  && negb (bool_decide (String.get 0 (c_name c) = Some " "%char)).

Definition jar_ok (jar : list Cookie) : bool := forallb cookie_ok jar.

(** No cookie named [name] stands in the store under another domain or
    path than the one this code writes to (host-only, path ["/"]). *)
Definition unshadowed (name : string) (jar : list Cookie) : bool :=
  forallb
    (λ c, if decide (c_name c = name)
          then bool_decide (c_domain c = "" ∧ c_path c = "/")
          else true)
    jar.

End CookieJar.

(** The runtime's dates as the browser reads them back: the text of a date
    holds no [';'], and when the browser can read it, it reads a time less
    than a second before the date. *)
Definition dates_ok (toUTCString : Z → string)
    (parseDate : string → option Z) : Prop :=
  ∀ t, Str.has_char ";" (toUTCString t) = false
       ∧ ∀ t', parseDate (CookieJar.trim (toUTCString t)) = Some t' →
               (t - 1000 < t')%Z.

(** A cookie header as a server or a test may write it: the entries are
    separated by [';'] and entry [i] is preceded by [n_i] spaces. The
    browser's own header is the case [0, 1, 1, ...]. *)
Definition spaced_header (es : list (nat * CookieJar.Cookie)) : string :=
  Str.join ";" ((λ e, Str.spaces e.1 +:+ CookieJar.pair_str e.2) <$> es).

(** The spacing of the header the browser itself produces. *)
Definition browser_spacing (jar : list CookieJar.Cookie)
  : list (nat * CookieJar.Cookie) :=
  match jar with
  | [] => []
  | c :: rest => (0, c) :: ((λ c', (1, c')) <$> rest)
  end.

Record Document := mkDocument {
  documentElement : Element;
  cookies : list CookieJar.Cookie;
}.

Section Codec.

(** [Date.prototype.toUTCString], applied to milliseconds since the epoch. *)
Variable toUTCString : Z → string.

(** The browser's reading of a date text. *)
Variable parseDate : string → option Z.

(** [document.cookie = `${name}=${value};expires=${...};path=/`] *)
Definition setValueToCookie (now : Z) (name value : string) (days : Z)
    (document : Document) : Document :=
  let expires := (now + days * 24 * 60 * 60 * 1000)%Z in
  {| documentElement := documentElement document;
     cookies :=
       CookieJar.assign parseDate now
         (name +:+ "=" +:+ value +:+ ";expires=" +:+ toUTCString expires
            +:+ ";path=/")
         (cookies document) |}.

(** The [while] loop dropping leading spaces. *)
Fixpoint skip_spaces (c : string) : string :=
  match c with
  | String " " rest => skip_spaces rest
  | _ => c
  end.

(** The [for] loop over the segments. *)
Fixpoint scan (nameEQ : string) (ca : list string) : option string :=
  match ca with
  | [] => None
  | c0 :: rest =>
      let c := skip_spaces c0 in
      if decide (Str.indexOf nameEQ c = 0%Z)
      then Some (Str.substring (String.length nameEQ) (String.length c) c)
      else scan nameEQ rest
  end.

(** The body of [getValueFromCookie] below its guard, on the text that
    [document.cookie] returned. *)
Definition readCookie (cookie : string) (name : string) : option string :=
  let nameEQ := name +:+ "=" in
  let ca := Str.split ";" cookie in
  scan nameEQ ca.

(** [document] is [None] where [typeof document === "undefined"]. *)
Definition getValueFromCookie (document : option Document) (name : string)
  : option string :=
  match document with
  | None => None
  | Some d => readCookie (CookieJar.header (cookies d)) name
  end.

(** [saveThemePreferences]; both writes read the clock at [now]. *)
Definition saveThemePreferences (now : Z) (preferences : ThemePreferences)
    (document : Document) : Document :=
  setValueToCookie now "theme-preset" (preset_str (preset preferences)) 365
    (setValueToCookie now "theme-mode" (mode_str (mode preferences)) 365
       document).

(** What [loadThemePreferences] returns: the casts [as ThemeMode] and
    [as ThemePreset] check nothing, so the fields are the cookie's text. *)
Record LoadedPreferences := mkLoaded {
  l_mode : string;
  l_preset : string;
}.

Definition loaded_of (p : ThemePreferences) : LoadedPreferences :=
  {| l_mode := mode_str (mode p); l_preset := preset_str (preset p) |}.

(** [v || fallback] on [string | null]: the fallback replaces [null] and
    the empty string. *)
Definition or_else (v : option string) (fallback : string) : string :=
  match v with
  | None | Some EmptyString => fallback
  | Some s => s
  end.

Definition loadThemePreferences (document : option Document)
  : LoadedPreferences :=
  let mode := or_else (getValueFromCookie document "theme-mode") "light" in
  let preset :=
    or_else (getValueFromCookie document "theme-preset") "default" in
  {| l_mode := mode; l_preset := preset |}.

End Codec.

(** ** lib/preferences-store.ts and lib/preferences-provider.tsx *)

(** A callback is known to the store by the identity of its function
    object. *)
Definition Listener := nat.

(** What code running against the store can do, as a program: the calls of
    the store's API, the provider's two React state setters, and the two
    theme utilities. [Unsubscribe l] is a call of the function that
    [subscribe(l)] returned. *)
Inductive Prog :=
  | Done
  | GetState (k : ThemePreferences → Prog)
  | SetState (newState : PartialPreferences) (k : Prog)
  | Subscribe (listener : Listener) (k : Prog)
  | Unsubscribe (listener : Listener) (k : Prog)
  | SetPreferences (p : ThemePreferences) (k : Prog)
  | SetIsHydrated (b : bool) (k : Prog)
  | UpdateTheme (p : ThemePreferences) (k : Prog)
  | SaveThemePreferences (p : ThemePreferences) (k : Prog).

Inductive Event :=
  | EState (s : ThemePreferences)
  | ESubscribed (l : Listener)
  | EUnsubscribed (l : Listener)
  | ENotified (l : Listener)
  | EPreferences (p : ThemePreferences)
  | EHydrated (b : bool)
  | EDom (p : ThemePreferences)
  | ECookie (p : ThemePreferences).

#[global] Instance Event_eq_dec : EqDecision Event.
Proof. solve_decision. Defined.

(** The provider's two [useState] cells. *)
Record ProviderState := mkProvider {
  preferences : ThemePreferences;
  isHydrated : bool;
}.

(** Everything the code reads and writes in one page session, and the log
    of what happened. *)
Record World := mkWorld {
  state : ThemePreferences;
  listeners : list Listener;
  document : Document;
  provider : ProviderState;
  clock : Z;
  trace : list Event;
}.

Definition log (e : Event) (w : World) : World :=
  mkWorld (state w) (listeners w) (document w) (provider w) (clock w)
    (trace w ++ [e]).

Definition with_state (s : ThemePreferences) (w : World) : World :=
  mkWorld s (listeners w) (document w) (provider w) (clock w) (trace w).

Definition with_listeners (ls : list Listener) (w : World) : World :=
  mkWorld (state w) ls (document w) (provider w) (clock w) (trace w).

Definition with_document (d : Document) (w : World) : World :=
  mkWorld (state w) (listeners w) d (provider w) (clock w) (trace w).

Definition with_provider (p : ProviderState) (w : World) : World :=
  mkWorld (state w) (listeners w) (document w) p (clock w) (trace w).

(** [this.listeners.indexOf(listener)] *)
Fixpoint indexOf (listener : Listener) (ls : list Listener) : Z :=
  match ls with
  | [] => (-1)%Z
  | l :: rest =>
      if decide (l = listener) then 0%Z
      else let i := indexOf listener rest in
           if (i <? 0)%Z then (-1)%Z else (i + 1)%Z
  end.

(** The function returned by [subscribe(listener)], on the listener array. *)
Definition unsubscribe (listener : Listener) (ls : list Listener)
  : list Listener :=
  let index := indexOf listener ls in
  if (index >? -1)%Z then delete (Z.to_nat index) ls else ls.

Inductive Frame :=
  | Run (p : Prog)
  | ForEach (k len : nat).

Section Machine.

Variable toUTCString : Z → string.
Variable parseDate : string → option Z.

(** The body of every callback that may be registered. *)
Variable bodies : Listener → Prog.

(** One step of the frame on top of the stack. [ForEach k len] is
    [listeners.forEach] at index [k]: the length was read when the loop
    began, the elements are read from the array as it is now, and an index
    past its end is skipped. *)
Definition step_frame (f : Frame) (rest : list Frame) (w : World)
  : list Frame * World :=
  match f with
  | Run Done => (rest, w)
  | Run (GetState k) => (Run (k (state w)) :: rest, w)
  | Run (SetState newState k) =>
      let s := spread (state w) newState in
      (ForEach 0 (length (listeners w)) :: Run k :: rest,
       log (EState s) (with_state s w))
  | Run (Subscribe l k) =>
      (Run k :: rest,
       log (ESubscribed l) (with_listeners (listeners w ++ [l]) w))
  | Run (Unsubscribe l k) =>
      (Run k :: rest,
       log (EUnsubscribed l)
         (with_listeners (unsubscribe l (listeners w)) w))
  | Run (SetPreferences p k) =>
      (Run k :: rest,
       log (EPreferences p)
         (with_provider (mkProvider p (isHydrated (provider w))) w))
  | Run (SetIsHydrated b k) =>
      (Run k :: rest,
       log (EHydrated b)
         (with_provider (mkProvider (preferences (provider w)) b) w))
  | Run (UpdateTheme p k) =>
      (Run k :: rest,
       log (EDom p)
         (with_document
            (mkDocument (updateTheme p (documentElement (document w)))
               (cookies (document w))) w))
  | Run (SaveThemePreferences p k) =>
      (Run k :: rest,
       log (ECookie p)
         (with_document
            (saveThemePreferences toUTCString parseDate (clock w) p (document w)) w))
  | ForEach k len =>
      if decide (k < len) then
        match listeners w !! k with
        | Some l =>
            (Run (bodies l) :: ForEach (S k) len :: rest, log (ENotified l) w)
        | None => (ForEach (S k) len :: rest, w)
        end
      else (rest, w)
  end.

Definition step (c : list Frame * World) : list Frame * World :=
  match c.1 with
  | [] => c
  | f :: rest => step_frame f rest c.2
  end.

Fixpoint steps (n : nat) (c : list Frame * World) : list Frame * World :=
  match n with
  | 0 => c
  | S n => steps n (step c)
  end.

(** Runs a program to completion, if [fuel] steps are enough. *)
Definition run (fuel : nat) (p : Prog) (w : World) : option World :=
  match steps fuel ([Run p], w) with
  | ([], w') => Some w'
  | _ => None
  end.

End Machine.

(** How a call of a hook ends. *)
Inductive Outcome (A : Type) :=
  | Returned (a : A)
  | Thrown (message : string).
Arguments Returned {A} a.
Arguments Thrown {A} message.

(** The store's convenience setters, each a call of [setState]. *)
Module PreferencesStore.

Definition setThemeMode (m : ThemeMode) (k : Prog) : Prog :=
  SetState {| p_mode := Some m; p_preset := None |} k.

Definition setThemePreset (p : ThemePreset) (k : Prog) : Prog :=
  SetState {| p_mode := None; p_preset := Some p |} k.

Definition setTheme (p : ThemePreferences) (k : Prog) : Prog :=
  SetState (full p) k.

(** The module-level instance as [new PreferencesStore()] leaves it. *)
Definition initial (d : Document) (p : ProviderState) (now : Z) : World :=
  mkWorld DEFAULT_THEME_PREFERENCES [] d p now [].

Record PreferencesState := mkPreferencesState {
  theme : ThemePreferences;
  ps_setThemeMode : ThemeMode → Prog → Prog;
  ps_setThemePreset : ThemePreset → Prog → Prog;
  ps_setTheme : ThemePreferences → Prog → Prog;
}.

(** The store-level hook [usePreferences] of preferences-store.ts at its
    first render: [useState(preferencesStore.getState())] and the store's
    setters. It consults no context. *)
Definition usePreferences (w : World) : Outcome PreferencesState :=
  Returned {| theme := state w;
              ps_setThemeMode := setThemeMode;
              ps_setThemePreset := setThemePreset;
              ps_setTheme := setTheme |}.

End PreferencesStore.

Module PreferencesProvider.

Record PreferencesContextValue := mkContext {
  cv_preferences : ThemePreferences;
  cv_setThemeMode : ThemeMode → Prog;
  cv_setThemePreset : ThemePreset → Prog;
  cv_toggleTheme : Prog;
}.

(** [useState(initialPreferences)] and [useState(false)] at the first
    render. *)
Definition initialState (initialPreferences : ThemePreferences)
  : ProviderState :=
  mkProvider initialPreferences false.

(** The callback handed to [preferencesStore.subscribe] by the effect. *)
Definition subscription : Prog :=
  GetState (λ newPreferences,
    SetPreferences newPreferences
      (UpdateTheme newPreferences
         (SaveThemePreferences newPreferences Done))).

(** The body of the mount effect; [cb] is the identity of the callback it
    registers. *)
Definition effect (initialPreferences : ThemePreferences) (cb : Listener)
  : Prog :=
  PreferencesStore.setTheme initialPreferences
    (SetPreferences initialPreferences
       (UpdateTheme initialPreferences
          (SetIsHydrated true
             (Subscribe cb Done)))).

(** The effect's cleanup: the [unsubscribe] it returned. *)
Definition cleanup (cb : Listener) : Prog := Unsubscribe cb Done.

Definition setThemeMode (m : ThemeMode) : Prog :=
  PreferencesStore.setThemeMode m Done.

Definition setThemePreset (p : ThemePreset) : Prog :=
  PreferencesStore.setThemePreset p Done.

(** [toggleTheme] as closed over the [preferences] of one render. *)
Definition toggleTheme (preferences : ThemePreferences) : Prog :=
  let newMode :=
    if decide (mode preferences = light) then dark else light in
  setThemeMode newMode.

Definition value (p : ProviderState) : PreferencesContextValue :=
  {| cv_preferences := preferences p;
     cv_setThemeMode := setThemeMode;
     cv_setThemePreset := setThemePreset;
     cv_toggleTheme := toggleTheme (preferences p) |}.

(** What one render of the provider puts around its children. *)
Inductive Rendered :=
  | HiddenDiv
  | ContextProvider (v : PreferencesContextValue).

Definition render (p : ProviderState) : Rendered :=
  if negb (isHydrated p) then HiddenDiv else ContextProvider (value p).

(** [useContext(PreferencesContext)] in a child: the value of the nearest
    [ContextProvider] above it, [outer] being what lies above the provider
    ([None] stands for the context's default, [undefined]). *)
Definition useContext (outer : option PreferencesContextValue)
    (r : Rendered) : option PreferencesContextValue :=
  match r with
  | HiddenDiv => outer
  | ContextProvider v => Some v
  end.

(** The context hook [usePreferences] of preferences-provider.tsx. *)
Definition usePreferences (context : option PreferencesContextValue)
  : Outcome PreferencesContextValue :=
  match context with
  | None => Thrown "usePreferences must be used within a PreferencesProvider"
  | Some c => Returned c
  end.

End PreferencesProvider.

(** ** Vocabulary of the statements *)

(** A program that makes no call into the store that changes it: no
    [setState], [subscribe] or [unsubscribe]. *)
Inductive Quiet : Prog → Prop :=
  | Quiet_Done : Quiet Done
  | Quiet_GetState k : (∀ s, Quiet (k s)) → Quiet (GetState k)
  | Quiet_SetPreferences p k : Quiet k → Quiet (SetPreferences p k)
  | Quiet_SetIsHydrated b k : Quiet k → Quiet (SetIsHydrated b k)
  | Quiet_UpdateTheme p k : Quiet k → Quiet (UpdateTheme p k)
  | Quiet_SaveThemePreferences p k :
      Quiet k → Quiet (SaveThemePreferences p k).

(** A program that never calls [setState]. *)
Inductive NoSetState : Prog → Prop :=
  | NSS_Done : NoSetState Done
  | NSS_GetState k : (∀ s, NoSetState (k s)) → NoSetState (GetState k)
  | NSS_Subscribe l k : NoSetState k → NoSetState (Subscribe l k)
  | NSS_Unsubscribe l k : NoSetState k → NoSetState (Unsubscribe l k)
  | NSS_SetPreferences p k : NoSetState k → NoSetState (SetPreferences p k)
  | NSS_SetIsHydrated b k : NoSetState k → NoSetState (SetIsHydrated b k)
  | NSS_UpdateTheme p k : NoSetState k → NoSetState (UpdateTheme p k)
  | NSS_SaveThemePreferences p k :
      NoSetState k → NoSetState (SaveThemePreferences p k).

(** A program that never passes [L] to [subscribe]. *)
Inductive NoSubscribe (L : Listener) : Prog → Prop :=
  | NS_Done : NoSubscribe L Done
  | NS_GetState k : (∀ s, NoSubscribe L (k s)) → NoSubscribe L (GetState k)
  | NS_SetState ns k : NoSubscribe L k → NoSubscribe L (SetState ns k)
  | NS_Subscribe l k :
      l ≠ L → NoSubscribe L k → NoSubscribe L (Subscribe l k)
  | NS_Unsubscribe l k : NoSubscribe L k → NoSubscribe L (Unsubscribe l k)
  | NS_SetPreferences p k :
      NoSubscribe L k → NoSubscribe L (SetPreferences p k)
  | NS_SetIsHydrated b k :
      NoSubscribe L k → NoSubscribe L (SetIsHydrated b k)
  | NS_UpdateTheme p k : NoSubscribe L k → NoSubscribe L (UpdateTheme p k)
  | NS_SaveThemePreferences p k :
      NoSubscribe L k → NoSubscribe L (SaveThemePreferences p k).

(** A program that never calls [setIsHydrated(false)]. *)
Inductive StaysHydrated : Prog → Prop :=
  | SH_Done : StaysHydrated Done
  | SH_GetState k : (∀ s, StaysHydrated (k s)) → StaysHydrated (GetState k)
  | SH_SetState ns k : StaysHydrated k → StaysHydrated (SetState ns k)
  | SH_Subscribe l k : StaysHydrated k → StaysHydrated (Subscribe l k)
  | SH_Unsubscribe l k : StaysHydrated k → StaysHydrated (Unsubscribe l k)
  | SH_SetPreferences p k :
      StaysHydrated k → StaysHydrated (SetPreferences p k)
  | SH_SetIsHydrated k : StaysHydrated k → StaysHydrated (SetIsHydrated true k)
  | SH_UpdateTheme p k : StaysHydrated k → StaysHydrated (UpdateTheme p k)
  | SH_SaveThemePreferences p k :
      StaysHydrated k → StaysHydrated (SaveThemePreferences p k).

Definition frame_ok (P : Prog → Prop) (f : Frame) : Prop :=
  match f with
  | Run p => P p
  | ForEach _ _ => True
  end.

(** How many times [L] is in the listener array. *)
Definition occurrences (L : Listener) (ls : list Listener) : nat :=
  length (filter (λ l, l = L) ls).

(** The listeners notified, in order, by a sequence of events. *)
Definition notified (evs : list Event) : list Listener :=
  omap (λ e, match e with ENotified l => Some l | _ => None end) evs.

(** No notification of [L] follows an [unsubscribe] of [L]. *)
Definition silenced (L : Listener) (evs : list Event) : Prop :=
  ∀ t1 t2, evs = t1 ++ EUnsubscribed L :: t2 → ENotified L ∉ t2.

(** A call of one of the two field setters. *)
Inductive Call :=
  | CallSetThemeMode (m : ThemeMode)
  | CallSetThemePreset (p : ThemePreset).

Fixpoint calls_prog (cs : list Call) : Prog :=
  match cs with
  | [] => Done
  | CallSetThemeMode m :: rest =>
      PreferencesStore.setThemeMode m (calls_prog rest)
  | CallSetThemePreset p :: rest =>
      PreferencesStore.setThemePreset p (calls_prog rest)
  end.

(** The last mode passed in [cs], or [m0] if none was. *)
Fixpoint last_mode (cs : list Call) (m0 : ThemeMode) : ThemeMode :=
  match cs with
  | [] => m0
  | CallSetThemeMode m :: rest => last_mode rest m
  | CallSetThemePreset _ :: rest => last_mode rest m0
  end.

Fixpoint last_preset (cs : list Call) (p0 : ThemePreset) : ThemePreset :=
  match cs with
  | [] => p0
  | CallSetThemeMode _ :: rest => last_preset rest p0
  | CallSetThemePreset p :: rest => last_preset rest p
  end.

Section Direct.

Variable toUTCString : Z → string.
Variable parseDate : string → option Z.
Variable bodies : Listener → Prog.

(** What a quiet program does to the world, in one go. *)
Fixpoint direct (p : Prog) (w : World) : World :=
  match p with
  | GetState k => direct (k (state w)) w
  | SetPreferences p k =>
      direct k
        (log (EPreferences p)
           (with_provider (mkProvider p (isHydrated (provider w))) w))
  | SetIsHydrated b k =>
      direct k
        (log (EHydrated b)
           (with_provider (mkProvider (preferences (provider w)) b) w))
  | UpdateTheme p k =>
      direct k
        (log (EDom p)
           (with_document
              (mkDocument (updateTheme p (documentElement (document w)))
                 (cookies (document w))) w))
  | SaveThemePreferences p k =>
      direct k
        (log (ECookie p)
           (with_document
              (saveThemePreferences toUTCString parseDate (clock w) p (document w)) w))
  | _ => w
  end.

(** One pass of [forEach] over quiet listeners. *)
Definition notify_all (ls : list Listener) (w : World) : World :=
  foldl (λ w l, direct (bodies l) (log (ENotified l) w)) w ls.

End Direct.

(** What holds of a run that started with trace [tr0], as far as [L] is
    concerned: [L] is registered at most once, nothing left to run
    subscribes it, and once it has been unsubscribed it is out of the array
    and has not been notified since. *)
Definition silent_inv (L : Listener) (tr0 : list Event)
    (c : list Frame * World) : Prop :=
  Forall (frame_ok (NoSubscribe L)) c.1
  ∧ occurrences L (listeners c.2) ≤ 1
  ∧ ∃ evs, trace c.2 = tr0 ++ evs
           ∧ silenced L evs
           ∧ (EUnsubscribed L ∈ evs → L ∉ listeners c.2).

(** ** Sample data *)

(** A runtime and a browser that agree on one date, a year after the
    epoch; any other date is invalid to both. *)
Definition sample_toUTCString (t : Z) : string :=
  if (t =? 31536000000)%Z then "Fri, 01 Jan 1971 00:00:00 GMT"
  else "Invalid Date".

Definition sample_parseDate (text : string) : option Z :=
  if decide (text = "Fri, 01 Jan 1971 00:00:00 GMT") then Some 31536000000%Z
  else None.

(** A page session as the layout sets it up: one provider, mounted, whose
    subscription is the only listener. *)
Definition sample_bodies (_ : Listener) : Prog :=
  PreferencesProvider.subscription.

Definition sample_world : World :=
  mkWorld DEFAULT_THEME_PREFERENCES [0]
    (mkDocument (mkElement [] ∅) [])
    (mkProvider DEFAULT_THEME_PREFERENCES true) 0 [].

(** Listener [0] unsubscribes listener [1] from inside its callback. *)
Definition meddling_bodies (l : Listener) : Prog :=
  match l with
  | 0 => Unsubscribe 1 Done
  | _ => Done
  end.

(** Listener [0] unsubscribes itself from inside its callback. *)
Definition one_shot_bodies (l : Listener) : Prog :=
  match l with
  | 0 => Unsubscribe 0 Done
  | _ => Done
  end.

Definition meddled_world : World :=
  mkWorld DEFAULT_THEME_PREFERENCES [0; 1; 2]
    (mkDocument (mkElement [] ∅) [])
    (mkProvider DEFAULT_THEME_PREFERENCES true) 0 [].

(** One callback passed to [subscribe] twice, the first [unsubscribe]
    called, then a [setState]. *)
Definition shared_callback_prog : Prog :=
  Subscribe 0
    (Subscribe 0
       (Unsubscribe 0
          (SetState (full DEFAULT_THEME_PREFERENCES) Done))).

(** ** lib/server-theme-utils.ts and the root layout *)

Module Server.

(** [getServerThemePreferences]; [get name] is what
    [cookieStore.get(name)?.value] evaluates to on the request's cookies. *)
Definition getServerThemePreferences (get : string → option string)
  : LoadedPreferences :=
  let mode :=
    or_else (get "theme-mode") (mode_str (mode DEFAULT_THEME_PREFERENCES)) in
  let preset :=
    or_else (get "theme-preset")
      (preset_str (preset DEFAULT_THEME_PREFERENCES)) in
  {| l_mode := mode; l_preset := preset |}.

(** The tokens of a [class] attribute: split at white space, each token
    once. *)
Definition class_tokens (className : string) : list string :=
  remove_dups (String.words className).

(** The [<html>] element the root layout renders: [lang="en"],
    [className={themePreferences.mode}] and
    [data-theme-preset={themePreferences.preset}]. *)
Definition Layout (themePreferences : LoadedPreferences) : Element :=
  {| classList := class_tokens (l_mode themePreferences);
     attributes :=
       <["data-theme-preset" := l_preset themePreferences]>
         {["lang" := "en"]} |}.

End Server.

(** ** components/theme/theme-switcher.tsx *)

Module ThemeSwitcher.

Inductive Icon := MoonIcon | SunIcon.

(** The button [ThemeSwitcher] renders, without its styling. *)
Record Button := mkButton {
  onClick : Prog;
  aria_label : string;
  title : string;
  icon : Icon;
}.

Definition label (m : ThemeMode) : string :=
  "Switch to " +:+ (if decide (m = light) then "dark" else "light")
  +:+ " mode".

Definition ThemeSwitcher
    (context : option PreferencesProvider.PreferencesContextValue)
  : Outcome Button :=
  match PreferencesProvider.usePreferences context with
  | Thrown message => Thrown message
  | Returned c =>
      let preferences := PreferencesProvider.cv_preferences c in
      Returned
        {| onClick := PreferencesProvider.cv_toggleTheme c;
           aria_label := label (mode preferences);
           title := label (mode preferences);
           icon := if decide (mode preferences = light) then MoonIcon
                   else SunIcon |}
  end.

End ThemeSwitcher.

(** ** components/header.tsx: the hamburger menu *)

Module Header.

(** What the component reacts to: a click on the menu button, and the two
    window events it listens for while mounted. *)
Inductive Event := Click | Resize | OrientationChange.

(** [html.classList.toggle(tok, force)] *)
Definition classList_toggle (tok : string) (force : bool) (e : Element)
  : Element :=
  if force then classList_add tok e else classList_remove tok e.

(** The first effect; [html] is [None] where [document.querySelector]
    finds no element. *)
Definition lockScroll (hamburgerMenuIsOpen : bool) (html : option Element)
  : option Element :=
  match html with
  | Some e => Some (classList_toggle "overflow-hidden" hamburgerMenuIsOpen e)
  | None => None
  end.

(** The state setter each event calls. *)
Definition handle (ev : Event) (hamburgerMenuIsOpen : bool) : bool :=
  match ev with
  | Click => negb hamburgerMenuIsOpen
  | Resize | OrientationChange => false
  end.

(** The component after its first render and effects:
    [useState(false)], then the first effect. *)
Definition mount (html : option Element) : bool * option Element :=
  (false, lockScroll false html).

(** One event: the state changes, and the first effect runs again if its
    dependency [hamburgerMenuIsOpen] changed. *)
Definition react (st : bool * option Element) (ev : Event)
  : bool * option Element :=
  let isOpen := handle ev st.1 in
  if decide (isOpen = st.1) then (isOpen, st.2)
  else (isOpen, lockScroll isOpen st.2).

Definition reacts (st : bool * option Element) (evs : list Event)
  : bool * option Element :=
  foldl react st evs.

(** The clicks since the last resize or orientation change. *)
Fixpoint clicks_since_reset (evs : list Event) : nat :=
  match evs with
  | [] => 0
  | Click :: rest => S (clicks_since_reset rest)
  | _ :: _ => 0
  end.

End Header.

(** The machine is inside a [setState] that listener [l], first in the
    array, will re-enter: on top of the stack is a call of [setState] or
    the start of a pass over a non-empty array. *)
Definition reentering (l : Listener) (c : list Frame * World) : Prop :=
  listeners c.2 !! 0 = Some l
  ∧ match c.1 with
    | Run (SetState _ _) :: _ => True
    | ForEach 0 len :: _ => 0 < len
    | _ => False
    end.

(** ** Cookie-safe text *)

(** A visible ASCII character other than [';']: what a cookie name or value
    may hold for the browser to store it as written. *)
Definition token_char (c : ascii) : bool :=
  let n := nat_of_ascii c in
  (33 <=? n) && (n <=? 126) && negb (n =? 59).

Definition cookie_value_safe (v : string) : bool :=
  forallb token_char (String.list_ascii_of_string v).

Definition cookie_name_safe (n : string) : bool :=
  cookie_value_safe n && negb (Str.has_char "=" n)
  && negb (bool_decide (n = "")).

(** ** More sample data *)

(** Every listener sets the preset from inside its notification. *)
Definition reentrant_bodies (_ : Listener) : Prog :=
  PreferencesStore.setThemePreset brutalist Done.

(** Listener [0] subscribes listener [7] from inside its callback. *)
Definition growing_bodies (l : Listener) : Prog :=
  match l with
  | 0 => Subscribe 7 Done
  | _ => Done
  end.

(** * Properties *)

(** ** The DOM contract *)

Lemma classList_add_contains tok e :
  classList_contains tok (classList_add tok e) = true.
Proof.
  unfold classList_contains, classList_add; simpl.
  apply bool_decide_eq_true. case_decide; [done | set_solver].
Qed.

Lemma classList_remove_contains tok e :
  classList_contains tok (classList_remove tok e) = false.
Proof.
  unfold classList_contains, classList_remove; simpl.
  apply bool_decide_eq_false. rewrite list_elem_of_filter. tauto.
Qed.

Lemma updateThemeMode_idem m e :
  updateThemeMode m (updateThemeMode m e) = updateThemeMode m e.
Proof.
  destruct m; simpl.
  - unfold classList_remove; simpl. f_equal.
    induction (classList e) as [|t ts IH]; [done|].
    rewrite filter_cons. case_decide; [|done].
    rewrite filter_cons. case_decide; [|done]. by rewrite IH.
  - unfold classList_add; simpl. f_equal.
    destruct (decide ("dark" ∈ classList e)) as [H1|H1].
    + by rewrite decide_True.
    + rewrite decide_True; [done | set_solver].
Qed.

(** C6: after [updateTheme p] the root element has class ["dark"] exactly
    when [p]'s mode is dark, its attribute [data-theme-preset] is [p]'s
    preset, and applying the same update again changes nothing. *)
Theorem updateTheme_dom_contract (p : ThemePreferences) (html : Element) :
  (classList_contains "dark" (updateTheme p html) = true ↔ mode p = dark)
  ∧ getAttribute "data-theme-preset" (updateTheme p html)
    = Some (preset_str (preset p))
  ∧ updateTheme p html
    = updateThemePreset (preset p) (updateThemeMode (mode p) html)
  ∧ updateTheme p (updateTheme p html) = updateTheme p html.
Proof.
  split; [|split; [|split]].
  - change (classList_contains "dark" (updateTheme p html))
      with (classList_contains "dark" (updateThemeMode (mode p) html)).
    destruct (mode p); simpl updateThemeMode.
    + rewrite classList_remove_contains. split; discriminate.
    + rewrite classList_add_contains. done.
  - unfold updateTheme, updateThemePreset, getAttribute, setAttribute; simpl.
    apply lookup_insert_eq.
  - reflexivity.
  - unfold updateTheme, updateThemePreset, setAttribute.
    destruct (mode p); simpl.
    + f_equal.
      * pose proof (updateThemeMode_idem light html) as H.
        simpl in H. injection H as H. exact H.
      * apply insert_insert_eq.
    + f_equal.
      * pose proof (updateThemeMode_idem dark html) as H.
        simpl in H. injection H as H. exact H.
      * apply insert_insert_eq.
Qed.

(** ** Strings *)

Section StringFacts.

#[local] Transparent String.prefix.
#[local] Arguments String.append : simpl nomatch.

Lemma append_assoc (a b c : string) : (a +:+ b) +:+ c = a +:+ b +:+ c.
Proof. induction a as [|x a IH]; cbn; [done | by f_equal]. Qed.

Lemma length_append (a b : string) :
  String.length (a +:+ b) = String.length a + String.length b.
Proof. induction a as [|x a IH]; cbn; [done | by f_equal]. Qed.

Lemma has_char_cons c a s :
  Str.has_char c (String a s) = false ↔ a ≠ c ∧ Str.has_char c s = false.
Proof.
  unfold Str.has_char; cbn [String.list_ascii_of_string].
  rewrite !bool_decide_eq_false, elem_of_cons. intuition congruence.
Qed.

Lemma has_char_empty c : Str.has_char c "" = false.
Proof. apply bool_decide_eq_false, not_elem_of_nil. Qed.

Lemma has_char_app c s t :
  Str.has_char c (s +:+ t) = false
  ↔ Str.has_char c s = false ∧ Str.has_char c t = false.
Proof.
  induction s as [|a s IH]; simpl.
  - rewrite has_char_empty. tauto.
  - rewrite !has_char_cons, IH. tauto.
Qed.

Lemma has_char_spaces c n : c ≠ " "%char → Str.has_char c (Str.spaces n) = false.
Proof.
  intros Hc. induction n as [|n IH]; simpl.
  - apply has_char_empty.
  - apply has_char_cons. split; [congruence | done].
Qed.

Lemma split_nosep sep s : Str.has_char sep s = false → Str.split sep s = [s].
Proof.
  induction s as [|a s IH]; simpl; [done|].
  intros [Ha Hs]%has_char_cons.
  rewrite decide_False by done. by rewrite IH.
Qed.

Lemma split_app sep s t :
  Str.has_char sep s = false →
  Str.split sep (s +:+ String sep t) = s :: Str.split sep t.
Proof.
  induction s as [|a s IH]; simpl.
  - intros _. by rewrite decide_True.
  - intros [Ha Hs]%has_char_cons.
    rewrite decide_False by done. by rewrite IH.
Qed.

Lemma split_join sep (segs : list string) :
  Forall (λ s, Str.has_char sep s = false) segs → segs ≠ [] →
  Str.split sep (Str.join (String sep "") segs) = segs.
Proof.
  induction 1 as [|s segs Hs Hall IH]; [done|]. intros _.
  destruct segs as [|s' segs]; simpl.
  - by apply split_nosep.
  - rewrite split_app by done. f_equal. by apply IH.
Qed.

Lemma skip_spaces_spaces n s : skip_spaces (Str.spaces n +:+ s) = skip_spaces s.
Proof. induction n as [|n IH]; simpl; done. Qed.

Lemma skip_spaces_id s : String.get 0 s ≠ Some " "%char → skip_spaces s = s.
Proof.
  destruct s as [|a s]; [done|]. simpl. intros Ha.
  destruct a as [[] [] [] [] [] [] [] []]; done.
Qed.

Lemma indexOf_zero_prefix p s :
  Str.indexOf p s = 0%Z ↔ String.prefix p s = true.
Proof.
  unfold Str.indexOf. destruct s as [|a s].
  - destruct p; simpl; split; done.
  - cbn [String.index]. destruct (String.prefix p (String a s)); [done|].
    destruct (String.index 0 p s); split; intros; try done; lia.
Qed.

Lemma prefix_app p v : String.prefix p (p +:+ v) = true.
Proof.
  induction p as [|a p IH]; cbn [String.prefix String.append];
    [by destruct v|].
  by destruct (ascii_dec a a).
Qed.

Lemma substring_all v : String.substring 0 (String.length v) v = v.
Proof. induction v as [|a v IH]; simpl; [done | by rewrite IH]. Qed.

Lemma substring_after p v :
  Str.substring (String.length p) (String.length (p +:+ v)) (p +:+ v) = v.
Proof.
  unfold Str.substring. rewrite length_append.
  replace (String.length p `min` (String.length p + String.length v))
    with (String.length p) by lia.
  replace (String.length p `max` (String.length p + String.length v)
           - String.length p) with (String.length v) by lia.
  induction p as [|a p IH]; simpl; [apply substring_all | done].
Qed.

Lemma prefix_name_eq name n v :
  Str.has_char "=" name = false → Str.has_char "=" n = false →
  String.prefix (name +:+ "=") (n +:+ "=" +:+ v) = true → name = n.
Proof.
  revert n.
  induction name as [|b name IH]; intros [|a n];
    cbn [String.prefix String.append].
  - done.
  - intros _ [Ha _]%has_char_cons. destruct (ascii_dec "=" a); [done|done].
  - intros [Hb _]%has_char_cons _. destruct (ascii_dec b "="); done.
  - intros [_ Hb]%has_char_cons [_ Ha]%has_char_cons.
    destruct (ascii_dec b a) as [->|]; [|done].
    intros H. f_equal. by apply IH.
Qed.

End StringFacts.

(** ** The cookie codec *)

Section CookieFacts.

#[local] Arguments String.append : simpl nomatch.

Lemma cookie_ok_spec c :
  CookieJar.cookie_ok c = true ↔
  Str.has_char ";" (CookieJar.c_name c) = false
  ∧ Str.has_char "=" (CookieJar.c_name c) = false
  ∧ Str.has_char ";" (CookieJar.c_value c) = false
  ∧ String.get 0 (CookieJar.c_name c) ≠ Some " "%char.
Proof.
  unfold CookieJar.cookie_ok.
  rewrite !andb_true_iff, !negb_true_iff, bool_decide_eq_false. tauto.
Qed.

Lemma pair_str_no_semicolon c :
  CookieJar.cookie_ok c = true → Str.has_char ";" (CookieJar.pair_str c) = false.
Proof.
  intros (H1 & _ & H3 & _)%cookie_ok_spec. unfold CookieJar.pair_str.
  apply has_char_app; split; [done|].
  apply has_char_app; split; [|done].
  apply has_char_cons; split; [done | apply has_char_empty].
Qed.

Lemma pair_str_no_leading_space c :
  CookieJar.cookie_ok c = true →
  String.get 0 (CookieJar.pair_str c) ≠ Some " "%char.
Proof.
  intros (_ & _ & _ & H4)%cookie_ok_spec. unfold CookieJar.pair_str.
  destruct (CookieJar.c_name c) as [|a n]; simpl in *; [done | exact H4].
Qed.

Lemma scan_spaced name (es : list (nat * CookieJar.Cookie)) :
  Str.has_char "=" name = false →
  CookieJar.jar_ok (es.*2) = true →
  scan (name +:+ "=")
    ((λ e, Str.spaces e.1 +:+ CookieJar.pair_str e.2) <$> es)
  = CookieJar.lookup name (es.*2).
Proof.
  intros Hname. unfold CookieJar.jar_ok.
  induction es as [|[n c] es IH]; [done|].
  cbn [fmap list_fmap forallb scan CookieJar.lookup fst snd].
  intros [Hc Hes]%andb_true_iff.
  rewrite skip_spaces_spaces, skip_spaces_id
    by by apply pair_str_no_leading_space.
  destruct (decide (CookieJar.c_name c = name)) as [<-|Hne].
  - assert (CookieJar.pair_str c
            = (CookieJar.c_name c +:+ "=") +:+ CookieJar.c_value c) as ->
      by (unfold CookieJar.pair_str; by rewrite append_assoc).
    rewrite decide_True by (apply indexOf_zero_prefix, prefix_app).
    by rewrite substring_after.
  - rewrite decide_False; [by apply IH|].
    rewrite indexOf_zero_prefix. intros Hp. apply Hne. symmetry.
    apply cookie_ok_spec in Hc as (_ & H2 & _).
    by eapply prefix_name_eq.
Qed.

Lemma scan_empty_header name : scan (name +:+ "=") [""] = None.
Proof.
  cbn [scan skip_spaces]. rewrite decide_False; [done|].
  rewrite indexOf_zero_prefix. by destruct name.
Qed.

Lemma readCookie_spaced name (es : list (nat * CookieJar.Cookie)) :
  Str.has_char "=" name = false →
  CookieJar.jar_ok (es.*2) = true →
  readCookie (spaced_header es) name = CookieJar.lookup name (es.*2).
Proof.
  intros Hname Hok. unfold readCookie, spaced_header.
  destruct es as [|e es]; [apply scan_empty_header|].
  rewrite split_join; [by apply scan_spaced | | done].
  apply Forall_fmap, Forall_forall. intros [n c] Hin; simpl.
  apply has_char_app; split; [by apply has_char_spaces|].
  apply pair_str_no_semicolon.
  unfold CookieJar.jar_ok in Hok. rewrite forallb_forall in Hok.
  apply Hok, list_elem_of_In.
  by apply (list_elem_of_fmap_2 snd) in Hin.
Qed.

Lemma join_browser_spacing (x : string) (xs : list string) :
  Str.join "; " (x :: xs) = Str.join ";" (x :: (String " " <$> xs)).
Proof.
  revert x. induction xs as [|y xs IH]; intros x; [done|].
  change (Str.join "; " (x :: y :: xs))
    with (x +:+ "; " +:+ Str.join "; " (y :: xs)).
  rewrite (IH y). by destruct xs.
Qed.

Lemma header_browser_spacing jar :
  CookieJar.header jar = spaced_header (browser_spacing jar).
Proof.
  unfold CookieJar.header, spaced_header. destruct jar as [|c jar]; [done|].
  cbn [browser_spacing fmap list_fmap]. rewrite join_browser_spacing.
  cbn [fst snd Str.spaces]. do 2 f_equal.
  rewrite <- !list_fmap_compose. done.
Qed.

Lemma browser_spacing_snd jar : (browser_spacing jar).*2 = jar.
Proof.
  destruct jar as [|c jar]; [done|]. cbn [browser_spacing fmap list_fmap snd].
  f_equal. rewrite <- list_fmap_compose. apply list_fmap_id.
Qed.

Lemma readCookie_header name jar :
  Str.has_char "=" name = false → CookieJar.jar_ok jar = true →
  readCookie (CookieJar.header jar) name = CookieJar.lookup name jar.
Proof.
  intros Hname Hok. rewrite header_browser_spacing.
  rewrite readCookie_spaced; rewrite ?browser_spacing_snd; done.
Qed.

End CookieFacts.

Section JarFacts.

#[local] Arguments String.append : simpl nomatch.

Lemma lookup_absent name jar :
  (∀ c, c ∈ jar → CookieJar.c_name c ≠ name) →
  CookieJar.lookup name jar = None.
Proof.
  induction jar as [|c jar IH]; [done|]. intros H. simpl.
  rewrite decide_False by (apply H; left).
  apply IH. intros c' Hc'. apply H. by right.
Qed.

Lemma forallb_elem_of {A} (f : A → bool) (l : list A) :
  forallb f l = true ↔ ∀ x, x ∈ l → f x = true.
Proof.
  rewrite forallb_forall. split; intros H x Hx; apply H.
  - by apply list_elem_of_In.
  - by apply list_elem_of_In.
Qed.

Lemma same_key_spec c c' :
  CookieJar.same_key c c' = true ↔
  CookieJar.c_name c = CookieJar.c_name c'
  ∧ CookieJar.c_domain c = CookieJar.c_domain c'
  ∧ CookieJar.c_path c = CookieJar.c_path c'.
Proof. unfold CookieJar.same_key. by rewrite bool_decide_eq_true. Qed.

Lemma jar_elem_of_insert x c jar :
  x ∈ CookieJar.insert c jar ↔ x = c ∨ x ∈ jar.
Proof.
  induction jar as [|c' jar IH]; simpl.
  - rewrite list_elem_of_singleton, elem_of_nil. tauto.
  - destruct (_ <? _); rewrite !elem_of_cons; [tauto|]. rewrite IH. tauto.
Qed.

Lemma elem_of_store x c jar :
  x ∈ CookieJar.store c jar → x = c ∨ x ∈ jar.
Proof.
  unfold CookieJar.store. destruct (existsb _ jar).
  - intros (c' & -> & Hc')%list_elem_of_fmap.
    destruct (CookieJar.same_key c c'); auto.
  - by intros ?%jar_elem_of_insert.
Qed.

Lemma elem_of_remove x c jar : x ∈ CookieJar.remove c jar → x ∈ jar.
Proof. unfold CookieJar.remove. by intros [_ ?]%list_elem_of_filter. Qed.

Lemma jar_lookup_insert_ne name c jar :
  CookieJar.c_name c ≠ name →
  CookieJar.lookup name (CookieJar.insert c jar) = CookieJar.lookup name jar.
Proof.
  intros Hne. induction jar as [|c' jar IH]; simpl.
  - by rewrite decide_False.
  - destruct (_ <? _); simpl.
    + by rewrite (decide_False (P := CookieJar.c_name c = name)).
    + by rewrite IH.
Qed.

Lemma jar_lookup_insert_fresh c jar :
  (∀ c', c' ∈ jar → CookieJar.c_name c' ≠ CookieJar.c_name c) →
  CookieJar.lookup (CookieJar.c_name c) (CookieJar.insert c jar)
  = Some (CookieJar.c_value c).
Proof.
  induction jar as [|c' jar IH]; intros H; simpl.
  - by rewrite decide_True.
  - destruct (_ <? _); simpl.
    + by rewrite decide_True.
    + rewrite decide_False by (apply H; left).
      apply IH. intros x Hx. apply H. by right.
Qed.

Lemma lookup_replace_ne name c jar :
  CookieJar.c_name c ≠ name →
  CookieJar.lookup name
    ((λ c', if CookieJar.same_key c c' then c else c') <$> jar)
  = CookieJar.lookup name jar.
Proof.
  intros Hne. induction jar as [|c' jar IH]; [done|].
  cbn [fmap list_fmap CookieJar.lookup].
  destruct (CookieJar.same_key c c') eqn:Hk.
  - apply same_key_spec in Hk as (Hn & _).
    rewrite !decide_False by congruence. apply IH.
  - by rewrite IH.
Qed.

Lemma lookup_replace_same c jar :
  (∀ c', c' ∈ jar → CookieJar.c_name c' = CookieJar.c_name c →
         CookieJar.same_key c c' = true) →
  (∃ c', c' ∈ jar ∧ CookieJar.c_name c' = CookieJar.c_name c) →
  CookieJar.lookup (CookieJar.c_name c)
    ((λ c', if CookieJar.same_key c c' then c else c') <$> jar)
  = Some (CookieJar.c_value c).
Proof.
  induction jar as [|c' jar IH]; intros H (x & Hx & Hn).
  - by apply elem_of_nil in Hx.
  - cbn [fmap list_fmap CookieJar.lookup].
    destruct (decide (CookieJar.c_name c' = CookieJar.c_name c)) as [E|E].
    + rewrite (H c') by (done || left). by rewrite decide_True.
    + destruct (CookieJar.same_key c c') eqn:Hk.
      { apply same_key_spec in Hk as (Hk & _). congruence. }
      rewrite decide_False by done. apply IH.
      * intros y Hy. apply H. by right.
      * apply elem_of_cons in Hx as [->|Hx]; [done|]. by exists x.
Qed.

Lemma lookup_store_ne name c jar :
  CookieJar.c_name c ≠ name →
  CookieJar.lookup name (CookieJar.store c jar) = CookieJar.lookup name jar.
Proof.
  intros Hne. unfold CookieJar.store. destruct (existsb _ jar).
  - by apply lookup_replace_ne.
  - by apply jar_lookup_insert_ne.
Qed.

Lemma lookup_store_same c jar :
  (∀ c', c' ∈ jar → CookieJar.c_name c' = CookieJar.c_name c →
         CookieJar.same_key c c' = true) →
  CookieJar.lookup (CookieJar.c_name c) (CookieJar.store c jar)
  = Some (CookieJar.c_value c).
Proof.
  intros H. unfold CookieJar.store.
  destruct (existsb (CookieJar.same_key c) jar) eqn:Hex.
  - apply lookup_replace_same; [done|].
    apply existsb_exists in Hex as (x & Hx & Hk).
    exists x. split; [by apply list_elem_of_In|].
    by apply same_key_spec in Hk as (-> & _).
  - apply jar_lookup_insert_fresh. intros c' Hc' Hn.
    assert (existsb (CookieJar.same_key c) jar = true) as Hex'; [|congruence].
    apply existsb_exists. exists c'.
    split; [by apply list_elem_of_In | by apply H].
Qed.

Lemma lookup_remove_ne name c jar :
  CookieJar.c_name c ≠ name →
  CookieJar.lookup name (CookieJar.remove c jar) = CookieJar.lookup name jar.
Proof.
  intros Hne. unfold CookieJar.remove.
  induction jar as [|c' jar IH]; [done|]. rewrite filter_cons.
  destruct (decide (CookieJar.same_key c c' = false)) as [Hk|Hk]; simpl.
  - by rewrite IH.
  - apply not_false_is_true, same_key_spec in Hk as (Hn & _).
    rewrite decide_False by congruence. apply IH.
Qed.

Lemma jar_ok_store c jar :
  CookieJar.cookie_ok c = true → CookieJar.jar_ok jar = true →
  CookieJar.jar_ok (CookieJar.store c jar) = true.
Proof.
  unfold CookieJar.jar_ok. rewrite !forallb_elem_of.
  intros Hc Hjar x [->|Hx]%elem_of_store; auto.
Qed.

Lemma jar_ok_remove c jar :
  CookieJar.jar_ok jar = true →
  CookieJar.jar_ok (CookieJar.remove c jar) = true.
Proof.
  unfold CookieJar.jar_ok. rewrite !forallb_elem_of.
  intros Hjar x Hx%elem_of_remove. auto.
Qed.

Lemma unshadowed_store name c jar :
  CookieJar.c_domain c = "" → CookieJar.c_path c = "/" →
  CookieJar.unshadowed name jar = true →
  CookieJar.unshadowed name (CookieJar.store c jar) = true.
Proof.
  unfold CookieJar.unshadowed. rewrite !forallb_elem_of.
  intros Hd Hp Hjar x [->|Hx]%elem_of_store; [|auto].
  destruct (decide _); [|done]. by apply bool_decide_eq_true.
Qed.

Lemma unshadowed_spec name jar c :
  CookieJar.unshadowed name jar = true → c ∈ jar →
  CookieJar.c_name c = name →
  CookieJar.c_domain c = "" ∧ CookieJar.c_path c = "/".
Proof.
  unfold CookieJar.unshadowed. rewrite forallb_elem_of.
  intros H Hc Hn. specialize (H c Hc). rewrite decide_True in H by done.
  by apply bool_decide_eq_true in H.
Qed.

(** *** The browser's reading of an assigned text *)

Lemma is_wsp_false c :
  c ≠ " "%char → c ≠ "009"%char → CookieJar.is_wsp c = false.
Proof.
  intros H1 H2. unfold CookieJar.is_wsp.
  by rewrite !bool_decide_eq_false_2.
Qed.

Lemma trim_no_wsp v :
  Str.has_char " " v = false → Str.has_char "009" v = false →
  CookieJar.trim v = v.
Proof.
  intros H1 H2. unfold CookieJar.trim.
  assert (CookieJar.trim_left v = v) as ->.
  { destruct v as [|c v]; [done|]. simpl.
    apply has_char_cons in H1 as [H1 _]. apply has_char_cons in H2 as [H2 _].
    by rewrite is_wsp_false. }
  induction v as [|c v IH]; [done|]. simpl.
  apply has_char_cons in H1 as [Hc1 H1]. apply has_char_cons in H2 as [Hc2 H2].
  rewrite IH by done. rewrite is_wsp_false by done. by destruct v.
Qed.

Lemma name_value_app n v :
  Str.has_char "=" n = false →
  CookieJar.name_value (n +:+ String "=" v) = (n, v).
Proof.
  induction n as [|a n IH]; cbn [String.append CookieJar.name_value].
  - intros _. by rewrite decide_True.
  - intros [Ha Hn]%has_char_cons.
    rewrite decide_False by done. by rewrite IH.
Qed.

Lemma has_char_eq_app n v : Str.has_char "=" (n +:+ String "=" v) = true.
Proof.
  apply not_false_is_true. intros [_ H]%has_char_app.
  by apply has_char_cons in H as [H _].
Qed.

Lemma pair_of_app n v :
  Str.has_char "=" n = false →
  CookieJar.pair_of (n +:+ String "=" v) = (n, v).
Proof.
  intros Hn. unfold CookieJar.pair_of.
  by rewrite has_char_eq_app, name_value_app.
Qed.

Lemma written_pair parseDate n v attrs :
  Str.has_char "=" n = false →
  CookieJar.trim n = n → CookieJar.trim v = v →
  let c := CookieJar.written parseDate (n +:+ String "=" v) attrs in
  CookieJar.c_name c = n ∧ CookieJar.c_value c = v
  ∧ CookieJar.c_domain c = "".
Proof.
  intros Hn Htn Htv. unfold CookieJar.written.
  rewrite pair_of_app by done. simpl. by rewrite Htn, Htv.
Qed.

Lemma read_attribute_expires parseDate scope D :
  CookieJar.read_attribute parseDate scope ("expires=" +:+ D)
  = (scope.1,
     match parseDate (CookieJar.trim D) with
     | Some t => Some t
     | None => scope.2
     end).
Proof.
  unfold CookieJar.read_attribute.
  change ("expires=" +:+ D) with ("expires" +:+ String "=" D).
  rewrite name_value_app by done.
  change (CookieJar.lowercase (CookieJar.trim "expires")) with "expires".
  rewrite decide_False by done. by rewrite decide_True.
Qed.

Lemma read_attribute_path parseDate scope :
  CookieJar.read_attribute parseDate scope "path=/" = ("/", scope.2).
Proof. by destruct scope. Qed.

Lemma written_scope parseDate nv D :
  Str.has_char ";" D = false →
  let c := CookieJar.written parseDate nv
             (Str.split ";" ("expires=" +:+ D +:+ ";path=/")) in
  CookieJar.c_path c = "/"
  ∧ CookieJar.c_expires c = parseDate (CookieJar.trim D).
Proof.
  intros HD. unfold CookieJar.written.
  assert (Str.split ";" ("expires=" +:+ D +:+ ";path=/")
          = ["expires=" +:+ D; "path=/"]) as ->.
  { change ("expires=" +:+ D +:+ ";path=/")
      with ("expires=" +:+ D +:+ String ";" "path=/").
    rewrite <- append_assoc, split_app.
    - by rewrite split_nosep.
    - by apply has_char_app. }
  destruct (CookieJar.pair_of nv) as [n v]. cbn [foldl].
  rewrite read_attribute_expires, read_attribute_path. simpl.
  split; [done|]. by destruct (parseDate (CookieJar.trim D)).
Qed.

Lemma split_assigned n v rest :
  Str.has_char ";" n = false → Str.has_char ";" v = false →
  Str.split ";" (n +:+ "=" +:+ v +:+ String ";" rest)
  = (n +:+ String "=" v) :: Str.split ";" rest.
Proof.
  intros H1 H2.
  assert (n +:+ "=" +:+ v +:+ String ";" rest
          = (n +:+ String "=" v) +:+ String ";" rest) as ->
    by (by rewrite !append_assoc).
  apply split_app. apply has_char_app; split; [done|].
  by apply has_char_cons.
Qed.

End JarFacts.

(** C4, as the code has it: [getValueFromCookie] is [null] without a
    document; with one, it reads the header, and on a header of
    [name=value] entries separated by [';'] with any number of spaces in
    front of each entry it returns the value of the first entry of that
    name as it is written, undecoded and with any spaces before the next
    [';'] kept, and [null] when there is none; on
    ["a=1; theme-mode=dark;theme-preset=tangerine"] it returns ["dark"] for
    ["theme-mode"] and ["tangerine"] for ["theme-preset"]. *)
Theorem getValueFromCookie_scans_header :
  (∀ name, getValueFromCookie None name = None)
  ∧ (∀ d name,
       getValueFromCookie (Some d) name
       = readCookie (CookieJar.header (cookies d)) name)
  ∧ (∀ (es : list (nat * CookieJar.Cookie)) name,
       Str.has_char "=" name = false →
       CookieJar.jar_ok (es.*2) = true →
       readCookie (spaced_header es) name = CookieJar.lookup name (es.*2)
       ∧ ((∀ c, c ∈ es.*2 → CookieJar.c_name c ≠ name) →
          readCookie (spaced_header es) name = None))
  ∧ readCookie "a=1; theme-mode=dark;theme-preset=tangerine" "theme-mode"
    = Some "dark"
  ∧ readCookie "a=1; theme-mode=dark;theme-preset=tangerine" "theme-preset"
    = Some "tangerine"
  ∧ readCookie "a=1; theme-mode=dark;theme-preset=tangerine" "missing"
    = None
  ∧ readCookie "a=1;   theme-mode=dark ;theme-preset=tangerine" "theme-mode"
    = Some "dark "
  ∧ readCookie "a=1; note=a%20b" "note" = Some "a%20b".
Proof.
  split; [done|]. split; [done|]. split; [|by vm_compute].
  intros es name Hname Hok.
  rewrite readCookie_spaced by done.
  split; [done|]. apply lookup_absent.
Qed.

Lemma getValueFromCookie_scans_header_witness :
  let es := [(0, CookieJar.mkCookie "a" "1" "" "/" None);
             (3, CookieJar.mkCookie "theme-mode" "dark " "" "/" None);
             (0, CookieJar.mkCookie "theme-preset" "tangerine" "" "/" None)]
  in
  spaced_header es = "a=1;   theme-mode=dark ;theme-preset=tangerine"
  ∧ readCookie (spaced_header es) "theme-mode" = Some "dark "
  ∧ readCookie (spaced_header es) "theme-preset" = Some "tangerine".
Proof.
  split; [reflexivity|]. split.
  - apply (proj1 (proj2 (proj2 getValueFromCookie_scans_header)));
      reflexivity.
  - apply (proj1 (proj2 (proj2 getValueFromCookie_scans_header)));
      reflexivity.
Defined.

(** C4 as stated fails where spaces stand before a [';']: they are
    returned as the end of the value; and no value is decoded. *)
Lemma getValueFromCookie_spacing_counterexample :
  readCookie "a=1 ; theme-mode=dark ;theme-preset=tangerine" "theme-mode"
  = Some "dark "
  ∧ readCookie "a=1 ; theme-mode=dark ;theme-preset=tangerine" "theme-mode"
    ≠ Some "dark"
  ∧ readCookie "a=1 ; theme-mode=dark ;theme-preset=tangerine" "a"
    = Some "1 "
  ∧ readCookie "note=a%20b" "note" ≠ Some "a b".
Proof. repeat split; (by vm_compute) || (vm_compute; discriminate). Qed.

Section RoundTrip.

Variable toUTCString : Z → string.
Variable parseDate : string → option Z.

Lemma setValueToCookie_cookies now n v days d :
  Str.has_char ";" n = false → Str.has_char ";" v = false →
  cookies (setValueToCookie toUTCString parseDate now n v days d)
  = let c := CookieJar.written parseDate (n +:+ String "=" v)
               (Str.split ";"
                  ("expires="
                   +:+ toUTCString (now + days * 24 * 60 * 60 * 1000)%Z
                   +:+ ";path=/")) in
    if CookieJar.expired now c then CookieJar.remove c (cookies d)
    else CookieJar.store c (cookies d).
Proof.
  intros H1 H2. unfold setValueToCookie, CookieJar.assign.
  cbn [cookies].
  change (n +:+ "=" +:+ v +:+ ";expires="
          +:+ toUTCString (now + days * 24 * 60 * 60 * 1000)%Z +:+ ";path=/")
    with (n +:+ "=" +:+ v
          +:+ String ";"
                ("expires="
                 +:+ toUTCString (now + days * 24 * 60 * 60 * 1000)%Z
                 +:+ ";path=/")).
  by rewrite split_assigned.
Qed.

(** Writing one cookie leaves the cookies of other names as they read, and
    the store well formed. *)
Lemma setValueToCookie_other now n v days d other :
  Str.has_char ";" n = false → Str.has_char "=" n = false →
  Str.has_char ";" v = false →
  CookieJar.trim n = n → CookieJar.trim v = v →
  other ≠ n →
  CookieJar.lookup other
    (cookies (setValueToCookie toUTCString parseDate now n v days d))
  = CookieJar.lookup other (cookies d).
Proof.
  intros H1 H2 H3 H4 H5 Hne. rewrite setValueToCookie_cookies by done.
  cbv zeta.
  pose proof (written_pair parseDate n v
                (Str.split ";"
                   ("expires="
                    +:+ toUTCString (now + days * 24 * 60 * 60 * 1000)%Z
                    +:+ ";path=/")) H2 H4 H5) as (Hn & _).
  destruct (CookieJar.expired now _).
  - apply lookup_remove_ne. congruence.
  - apply lookup_store_ne. congruence.
Qed.

Lemma setValueToCookie_jar_ok now n v days d :
  Str.has_char ";" n = false → Str.has_char "=" n = false →
  Str.has_char ";" v = false →
  CookieJar.trim n = n → CookieJar.trim v = v →
  String.get 0 n ≠ Some " "%char →
  CookieJar.jar_ok (cookies d) = true →
  CookieJar.jar_ok
    (cookies (setValueToCookie toUTCString parseDate now n v days d)) = true.
Proof.
  intros H1 H2 H3 H4 H5 H6 Hok. rewrite setValueToCookie_cookies by done.
  cbv zeta.
  pose proof (written_pair parseDate n v
                (Str.split ";"
                   ("expires="
                    +:+ toUTCString (now + days * 24 * 60 * 60 * 1000)%Z
                    +:+ ";path=/")) H2 H4 H5) as (Hn & Hv & _).
  destruct (CookieJar.expired now _).
  - by apply jar_ok_remove.
  - apply jar_ok_store; [|done]. apply cookie_ok_spec.
    by rewrite Hn, Hv.
Qed.

(** With dates the browser reads back and an expiry at least a day ahead,
    the cookie is stored: host-only, on path ["/"]. *)
Lemma setValueToCookie_stored now n v days d :
  dates_ok toUTCString parseDate → (0 < days)%Z →
  Str.has_char ";" n = false → Str.has_char "=" n = false →
  Str.has_char ";" v = false →
  CookieJar.trim n = n → CookieJar.trim v = v →
  cookies (setValueToCookie toUTCString parseDate now n v days d)
  = CookieJar.store
      (CookieJar.mkCookie n v "" "/"
         (parseDate
            (CookieJar.trim
               (toUTCString (now + days * 24 * 60 * 60 * 1000)%Z))))
      (cookies d).
Proof.
  intros Hdates Hdays H1 H2 H3 H4 H5.
  rewrite setValueToCookie_cookies by done. cbv zeta.
  set (e := (now + days * 24 * 60 * 60 * 1000)%Z).
  destruct (Hdates e) as [HD Hread].
  pose proof (written_pair parseDate n v
                (Str.split ";" ("expires=" +:+ toUTCString e +:+ ";path=/"))
                H2 H4 H5) as (Hn & Hv & Hd).
  pose proof (written_scope parseDate (n +:+ String "=" v)
                (toUTCString e) HD) as (Hp & He).
  cbv zeta in Hn, Hv, Hd, Hp, He.
  destruct (CookieJar.written parseDate (n +:+ String "=" v)
              (Str.split ";" ("expires=" +:+ toUTCString e +:+ ";path=/")))
    as [cn cv cd cp ce].
  simpl in *. subst cn cv cd cp ce.
  unfold CookieJar.expired. simpl.
  destruct (parseDate (CookieJar.trim (toUTCString e))) as [t'|] eqn:Ht;
    [|done].
  specialize (Hread t' eq_refl).
  replace (t' <=? now)%Z with false; [done|].
  symmetry. apply Z.leb_gt. unfold e in Hread. lia.
Qed.

Lemma saveThemePreferences_other now p d other :
  other ≠ "theme-mode" → other ≠ "theme-preset" →
  CookieJar.lookup other
    (cookies (saveThemePreferences toUTCString parseDate now p d))
  = CookieJar.lookup other (cookies d).
Proof.
  intros H1 H2. unfold saveThemePreferences.
  rewrite setValueToCookie_other;
    [|done|done|by destruct (preset p)|done|by destruct (preset p)|done].
  rewrite setValueToCookie_other;
    [|done|done|by destruct (mode p)|done|by destruct (mode p)|done].
  done.
Qed.

Lemma saveThemePreferences_jar_ok now p d :
  CookieJar.jar_ok (cookies d) = true →
  CookieJar.jar_ok
    (cookies (saveThemePreferences toUTCString parseDate now p d)) = true.
Proof.
  intros Hok. unfold saveThemePreferences.
  apply setValueToCookie_jar_ok;
    [done|done|by destruct (preset p)|done|by destruct (preset p)|done|].
  apply setValueToCookie_jar_ok;
    [done|done|by destruct (mode p)|done|by destruct (mode p)|done|done].
Qed.

Lemma saveThemePreferences_stored now p d :
  dates_ok toUTCString parseDate →
  let expires :=
    parseDate (CookieJar.trim
                 (toUTCString (now + 365 * 24 * 60 * 60 * 1000)%Z)) in
  cookies (saveThemePreferences toUTCString parseDate now p d)
  = CookieJar.store
      (CookieJar.mkCookie "theme-preset" (preset_str (preset p)) "" "/"
         expires)
      (CookieJar.store
         (CookieJar.mkCookie "theme-mode" (mode_str (mode p)) "" "/"
            expires)
         (cookies d)).
Proof.
  intros Hdates expires. unfold saveThemePreferences.
  rewrite setValueToCookie_stored;
    [|done|done|done|done|by destruct (preset p)|done
     |by destruct (preset p)].
  rewrite setValueToCookie_stored;
    [|done|done|done|done|by destruct (mode p)|done|by destruct (mode p)].
  done.
Qed.

(** After [saveThemePreferences p], on a store that held no theme cookie
    under another domain or path, the two theme cookies are the first of
    their names and hold [p]; and the store still holds none under another
    domain or path. *)
Lemma saveThemePreferences_lookup now p d :
  dates_ok toUTCString parseDate →
  CookieJar.unshadowed "theme-mode" (cookies d) = true →
  CookieJar.unshadowed "theme-preset" (cookies d) = true →
  let jar := cookies (saveThemePreferences toUTCString parseDate now p d) in
  CookieJar.lookup "theme-mode" jar = Some (mode_str (mode p))
  ∧ CookieJar.lookup "theme-preset" jar = Some (preset_str (preset p))
  ∧ CookieJar.unshadowed "theme-mode" jar = true
  ∧ CookieJar.unshadowed "theme-preset" jar = true.
Proof.
  intros Hdates Hm Hp jar. unfold jar.
  rewrite saveThemePreferences_stored by done. cbv zeta.
  set (e := parseDate _).
  set (c1 := CookieJar.mkCookie "theme-mode" (mode_str (mode p)) "" "/" e).
  set (c2 := CookieJar.mkCookie "theme-preset" (preset_str (preset p))
               "" "/" e).
  split; [|split; [|split]].
  - rewrite (lookup_store_ne "theme-mode" c2) by done.
    apply (lookup_store_same c1). intros c' Hc' Hn.
    apply same_key_spec.
    destruct (unshadowed_spec _ _ c' Hm Hc' Hn) as [-> ->]. done.
  - apply (lookup_store_same c2). intros c' Hc' Hn.
    apply same_key_spec.
    apply elem_of_store in Hc' as [->|Hc']; [done|].
    destruct (unshadowed_spec _ _ c' Hp Hc' Hn) as [-> ->]. done.
  - by do 2 (apply unshadowed_store; [done|done|]).
  - by do 2 (apply unshadowed_store; [done|done|]).
Qed.


End RoundTrip.

Lemma sample_dates_ok : dates_ok sample_toUTCString sample_parseDate.
Proof.
  intros t. unfold sample_toUTCString, sample_parseDate.
  destruct (Z.eqb_spec t 31536000000) as [->|Hne].
  - split; [reflexivity|]. intros t'. vm_compute. intros [= <-]. done.
  - split; [reflexivity|]. intros t'. vm_compute. discriminate.
Qed.



(** ** The listener array *)

Section ListenerFacts.

Lemma indexOf_ge x ls : (-1 ≤ indexOf x ls)%Z.
Proof.
  induction ls as [|l ls IH]; simpl; [lia|].
  destruct (decide (l = x)); [lia|].
  destruct (indexOf x ls <? 0)%Z eqn:E; lia.
Qed.

Lemma unsubscribe_cons x l ls :
  unsubscribe x (l :: ls)
  = if decide (l = x) then ls else l :: unsubscribe x ls.
Proof.
  unfold unsubscribe. simpl. destruct (decide (l = x)); [done|].
  pose proof (indexOf_ge x ls) as Hge. rewrite !Z.gtb_ltb.
  destruct (Z.ltb_spec (indexOf x ls) 0).
  - destruct (Z.ltb_spec (-1) (indexOf x ls)); [lia | done].
  - destruct (Z.ltb_spec (-1) (indexOf x ls + 1)); [|lia].
    destruct (Z.ltb_spec (-1) (indexOf x ls)); [|lia].
    replace (Z.to_nat (indexOf x ls + 1)) with (S (Z.to_nat (indexOf x ls)))
      by lia.
    done.
Qed.

Lemma occurrences_cons L l ls :
  occurrences L (l :: ls)
  = if decide (l = L) then S (occurrences L ls) else occurrences L ls.
Proof. unfold occurrences. rewrite filter_cons. by destruct (decide (l = L)). Qed.

Lemma occurrences_snoc L l ls :
  occurrences L (ls ++ [l])
  = if decide (l = L) then S (occurrences L ls) else occurrences L ls.
Proof.
  unfold occurrences. rewrite filter_app, length_app, filter_cons.
  destruct (decide (l = L)); simpl; lia.
Qed.

Lemma occurrences_zero L ls : occurrences L ls = 0 ↔ L ∉ ls.
Proof.
  induction ls as [|l ls IH]; [by split; [intros _; apply not_elem_of_nil|]|].
  rewrite occurrences_cons, not_elem_of_cons.
  destruct (decide (l = L)); [split; [lia | intros []; congruence]|].
  rewrite IH. intuition congruence.
Qed.

Lemma unsubscribe_absent L ls : L ∉ ls → unsubscribe L ls = ls.
Proof.
  induction ls as [|l ls IH]; [done|].
  intros [Hne Hin]%not_elem_of_cons. rewrite unsubscribe_cons.
  rewrite decide_False by congruence. by rewrite IH.
Qed.

Lemma elem_of_unsubscribe x l ls : x ∈ unsubscribe l ls → x ∈ ls.
Proof.
  induction ls as [|l' ls IH]; [done|]. rewrite unsubscribe_cons.
  destruct (decide (l' = l)); [by right|].
  intros [->|Hin]%elem_of_cons; [left | right; by apply IH].
Qed.

Lemma occurrences_unsubscribe_le L l ls :
  occurrences L (unsubscribe l ls) ≤ occurrences L ls.
Proof.
  induction ls as [|l' ls IH]; [done|]. rewrite unsubscribe_cons.
  destruct (decide (l' = l)).
  - rewrite occurrences_cons. destruct (decide (l' = L)); lia.
  - rewrite !occurrences_cons. destruct (decide (l' = L)); lia.
Qed.

Lemma filter_absent (L : Listener) (ls : list Listener) :
  L ∉ ls → filter (λ l, l ≠ L) ls = ls.
Proof.
  induction ls as [|l ls IH]; [done|].
  intros [Hne Hin]%not_elem_of_cons. rewrite filter_cons.
  rewrite decide_True by congruence. by rewrite IH.
Qed.

Lemma unsubscribe_once L ls :
  occurrences L ls ≤ 1 →
  unsubscribe L ls = filter (λ l, l ≠ L) ls ∧ L ∉ unsubscribe L ls.
Proof.
  induction ls as [|l ls IH]; [by split; [|apply not_elem_of_nil]|].
  rewrite occurrences_cons, unsubscribe_cons, filter_cons.
  destruct (decide (l = L)) as [->|Hne]; intros Hocc.
  - assert (L ∉ ls) as Hnot by (apply occurrences_zero; lia).
    rewrite decide_False by (intros H; by apply H). split; [|done].
    by rewrite filter_absent.
  - destruct (IH Hocc) as [-> Hnot]. rewrite decide_True by done.
    split; [done|]. apply not_elem_of_cons. split; [congruence | done].
Qed.

Lemma silenced_snoc L evs e :
  silenced L evs →
  (e = ENotified L → EUnsubscribed L ∉ evs) →
  silenced L (evs ++ [e]).
Proof.
  intros Hs He t1 t2 Heq Hin.
  destruct t2 as [|x t2 _] using rev_ind; [by apply elem_of_nil in Hin|].
  change (t1 ++ EUnsubscribed L :: t2 ++ [x])
    with (t1 ++ (EUnsubscribed L :: t2) ++ [x]) in Heq.
  rewrite app_assoc in Heq. apply app_inj_tail in Heq as [-> ->].
  apply elem_of_app in Hin as [Hin|Hin].
  - by apply (Hs t1 t2).
  - apply list_elem_of_singleton in Hin. apply He; [done|].
    apply elem_of_app. right. left.
Qed.

End ListenerFacts.

(** ** The stack machine *)

Section MachineFacts.

Variable toUTCString : Z → string.
Variable parseDate : string → option Z.
Variable bodies : Listener → Prog.

#[local] Abbreviation msteps := (steps toUTCString parseDate bodies).
#[local] Abbreviation mstep := (step toUTCString parseDate bodies).
#[local] Abbreviation mrun := (run toUTCString parseDate bodies).
#[local] Abbreviation mdirect := (direct toUTCString parseDate).
#[local] Abbreviation mnotify_all := (notify_all toUTCString parseDate bodies).

Lemma steps_add n m c : msteps (n + m) c = msteps m (msteps n c).
Proof. revert c. induction n as [|n IH]; intros c; simpl; [done | apply IH]. Qed.

Lemma steps_halt n w : msteps n ([], w) = ([], w).
Proof. induction n as [|n IH]; simpl; [done | apply IH]. Qed.

Lemma steps_S n f rest w :
  msteps (S n) (f :: rest, w) = msteps n (step_frame toUTCString parseDate bodies f rest w).
Proof. done. Qed.

Lemma run_of_steps n p w w' :
  msteps n ([Run p], w) = ([], w') → mrun n p w = Some w'.
Proof. unfold run. by intros ->. Qed.

Lemma direct_store p w :
  state (mdirect p w) = state w ∧ listeners (mdirect p w) = listeners w
  ∧ clock (mdirect p w) = clock w.
Proof.
  revert w.
  induction p as [|k IH|ns k IH|l k IH|l k IH|p k IH|b k IH|p k IH|p k IH];
    intros w; simpl; try done; try apply IH.
  all: match goal with
       | |- context [direct _ _ _ ?w'] =>
           destruct (IH w') as (-> & -> & ->)
       end; done.
Qed.

Lemma quiet_steps p :
  Quiet p → ∀ w, ∃ n, ∀ rest, msteps n (Run p :: rest, w) = (rest, mdirect p w).
Proof.
  induction 1 as [|k Hk IH|p k Hk IH|b k Hk IH|p k Hk IH|p k Hk IH];
    intros w.
  - by exists 1.
  - destruct (IH (state w) w) as [n Hn]. exists (S n). intros rest.
    rewrite steps_S. apply Hn.
  - edestruct IH as [n Hn]. exists (S n). intros rest.
    rewrite steps_S. apply Hn.
  - edestruct IH as [n Hn]. exists (S n). intros rest.
    rewrite steps_S. apply Hn.
  - edestruct IH as [n Hn]. exists (S n). intros rest.
    rewrite steps_S. apply Hn.
  - edestruct IH as [n Hn]. exists (S n). intros rest.
    rewrite steps_S. apply Hn.
Qed.

Lemma notify_all_store ls w :
  state (mnotify_all ls w) = state w
  ∧ listeners (mnotify_all ls w) = listeners w
  ∧ clock (mnotify_all ls w) = clock w.
Proof.
  revert w. induction ls as [|l ls IH]; intros w; [done|].
  unfold notify_all in *. simpl.
  destruct (IH (mdirect (bodies l) (log (ENotified l) w))) as (-> & -> & ->).
  destruct (direct_store (bodies l) (log (ENotified l) w)) as (-> & -> & ->).
  done.
Qed.

Lemma forEach_quiet :
  (∀ l, Quiet (bodies l)) →
  ∀ ls k w, drop k (listeners w) = ls →
    ∃ n, ∀ rest,
      msteps n (ForEach k (length (listeners w)) :: rest, w)
      = (rest, mnotify_all ls w).
Proof.
  intros Hq ls. induction ls as [|l ls IH]; intros k w Hdrop.
  - exists 1. intros rest. rewrite steps_S. simpl.
    apply drop_nil_inv in Hdrop. rewrite decide_False by lia. done.
  - assert (listeners w !! k = Some l) as Hk.
    { pose proof (lookup_drop (listeners w) k 0) as H.
      rewrite Hdrop, Nat.add_0_r in H. done. }
    assert (drop (S k) (listeners w) = ls) as Hdrop'.
    { rewrite (drop_S _ _ _ Hk) in Hdrop. congruence. }
    destruct (quiet_steps _ (Hq l) (log (ENotified l) w)) as [n1 Hn1].
    destruct (direct_store (bodies l) (log (ENotified l) w))
      as (_ & Hls & _).
    destruct (IH (S k) (mdirect (bodies l) (log (ENotified l) w)))
      as [n2 Hn2]; [by rewrite Hls|].
    exists (S (n1 + n2)). intros rest. rewrite steps_S. simpl.
    rewrite decide_True by (apply lookup_lt_Some in Hk; lia).
    rewrite Hk, steps_add, Hn1.
    rewrite Hls in Hn2. simpl in Hn2. apply Hn2.
Qed.

Lemma setState_quiet :
  (∀ l, Quiet (bodies l)) →
  ∀ ns k w, ∃ n, ∀ rest,
    msteps n (Run (SetState ns k) :: rest, w)
    = (Run k :: rest,
       mnotify_all (listeners w)
         (log (EState (spread (state w) ns))
            (with_state (spread (state w) ns) w))).
Proof.
  intros Hq ns k w.
  destruct (forEach_quiet Hq (listeners w) 0
              (log (EState (spread (state w) ns))
                 (with_state (spread (state w) ns) w)))
    as [n Hn]; [done|].
  exists (S n). intros rest. rewrite steps_S. simpl. apply Hn.
Qed.

Lemma noSetState_steps p :
  NoSetState p → ∀ w, ∃ n w',
    (∀ rest, msteps n (Run p :: rest, w) = (rest, w'))
    ∧ state w' = state w.
Proof.
  induction 1 as [|k Hk IH|l k Hk IH|l k Hk IH|p k Hk IH|b k Hk IH
                  |p k Hk IH|p k Hk IH]; intros w.
  - exists 1, w. done.
  - destruct (IH (state w) w) as (n & w' & Hn & Hs).
    exists (S n), w'. split; [|done]. intros rest. rewrite steps_S. apply Hn.
  - edestruct IH as (n & w' & Hn & Hs). exists (S n), w'.
    split; [intros rest; rewrite steps_S; apply Hn | by rewrite Hs].
  - edestruct IH as (n & w' & Hn & Hs). exists (S n), w'.
    split; [intros rest; rewrite steps_S; apply Hn | by rewrite Hs].
  - edestruct IH as (n & w' & Hn & Hs). exists (S n), w'.
    split; [intros rest; rewrite steps_S; apply Hn | by rewrite Hs].
  - edestruct IH as (n & w' & Hn & Hs). exists (S n), w'.
    split; [intros rest; rewrite steps_S; apply Hn | by rewrite Hs].
  - edestruct IH as (n & w' & Hn & Hs). exists (S n), w'.
    split; [intros rest; rewrite steps_S; apply Hn | by rewrite Hs].
  - edestruct IH as (n & w' & Hn & Hs). exists (S n), w'.
    split; [intros rest; rewrite steps_S; apply Hn | by rewrite Hs].
Qed.

Lemma noSetState_forEach :
  (∀ l, NoSetState (bodies l)) →
  ∀ d k len w, len - k = d → ∃ n w',
    (∀ rest, msteps n (ForEach k len :: rest, w) = (rest, w'))
    ∧ state w' = state w.
Proof.
  intros Hb d. induction d as [|d IH]; intros k len w Hd.
  - exists 1, w. split; [|done]. intros rest. rewrite steps_S. simpl.
    by rewrite decide_False by lia.
  - destruct (listeners w !! k) as [l|] eqn:Hk.
    + destruct (noSetState_steps _ (Hb l) (log (ENotified l) w))
        as (n1 & w1 & Hn1 & Hs1).
      destruct (IH (S k) len w1) as (n2 & w2 & Hn2 & Hs2); [lia|].
      exists (S (n1 + n2)), w2. split; [|by rewrite Hs2, Hs1].
      intros rest. rewrite steps_S. simpl.
      rewrite decide_True by lia. rewrite Hk, steps_add, Hn1. apply Hn2.
    + destruct (IH (S k) len w) as (n2 & w2 & Hn2 & Hs2); [lia|].
      exists (S n2), w2. split; [|done].
      intros rest. rewrite steps_S. simpl.
      rewrite decide_True by lia. rewrite Hk. apply Hn2.
Qed.

Lemma noSetState_setState :
  (∀ l, NoSetState (bodies l)) →
  ∀ ns k w, ∃ n w',
    (∀ rest, msteps n (Run (SetState ns k) :: rest, w) = (Run k :: rest, w'))
    ∧ state w' = spread (state w) ns.
Proof.
  intros Hb ns k w.
  destruct (noSetState_forEach Hb (length (listeners w) - 0) 0
              (length (listeners w))
              (log (EState (spread (state w) ns))
                 (with_state (spread (state w) ns) w)))
    as (n & w' & Hn & Hs); [done|].
  exists (S n), w'. split; [|done]. intros rest. rewrite steps_S. apply Hn.
Qed.

Lemma calls_run :
  (∀ l, NoSetState (bodies l)) →
  ∀ cs w, ∃ n w',
    (∀ rest, msteps n (Run (calls_prog cs) :: rest, w) = (rest, w'))
    ∧ mode (state w') = last_mode cs (mode (state w))
    ∧ preset (state w') = last_preset cs (preset (state w)).
Proof.
  intros Hb cs. induction cs as [|c cs IH]; intros w.
  - exists 1, w. done.
  - destruct c as [m|p]; simpl.
    + destruct (noSetState_setState Hb
                  {| p_mode := Some m; p_preset := None |}
                  (calls_prog cs) w) as (n1 & w1 & Hn1 & Hs1).
      destruct (IH w1) as (n2 & w2 & Hn2 & Hm & Hp).
      exists (n1 + n2), w2. rewrite Hm, Hp, Hs1. split; [|done].
      intros rest. unfold PreferencesStore.setThemeMode.
      rewrite steps_add, Hn1. apply Hn2.
    + destruct (noSetState_setState Hb
                  {| p_mode := None; p_preset := Some p |}
                  (calls_prog cs) w) as (n1 & w1 & Hn1 & Hs1).
      destruct (IH w1) as (n2 & w2 & Hn2 & Hm & Hp).
      exists (n1 + n2), w2. rewrite Hm, Hp, Hs1. split; [|done].
      intros rest. unfold PreferencesStore.setThemePreset.
      rewrite steps_add, Hn1. apply Hn2.
Qed.

Lemma notified_snoc evs e :
  notified (evs ++ [e])
  = notified evs ++ match e with ENotified l => [l] | _ => [] end.
Proof. unfold notified. rewrite omap_app. by destruct e. Qed.

Lemma direct_trace p w :
  ∃ evs, trace (mdirect p w) = trace w ++ evs ∧ notified evs = [].
Proof.
  revert w.
  induction p as [|k IH|ns k IH|l k IH|l k IH|p k IH|b k IH|p k IH|p k IH];
    intros w; simpl; try (by exists []; rewrite app_nil_r); try apply IH.
  all: match goal with
       | |- context [direct _ _ _ (log ?e ?w')] =>
           destruct (IH (log e w')) as (evs & -> & Hn);
           exists (e :: evs); simpl; rewrite <- app_assoc; done
       end.
Qed.

Lemma notify_all_cons l ls w :
  mnotify_all (l :: ls) w
  = mnotify_all ls (mdirect (bodies l) (log (ENotified l) w)).
Proof. done. Qed.

Lemma notify_all_trace ls w :
  ∃ evs, trace (mnotify_all ls w) = trace w ++ evs ∧ notified evs = ls.
Proof.
  revert w. induction ls as [|l ls IH]; intros w.
  - exists []. by rewrite app_nil_r.
  - rewrite notify_all_cons.
    destruct (IH (mdirect (bodies l) (log (ENotified l) w)))
      as (evs2 & -> & Hn2).
    destruct (direct_trace (bodies l) (log (ENotified l) w))
      as (evs1 & -> & Hn1).
    exists (ENotified l :: evs1 ++ evs2). simpl.
    rewrite <- !app_assoc. split; [done|].
    unfold notified in *. simpl. rewrite omap_app, Hn1, Hn2. done.
Qed.

Lemma direct_subscription w :
  let s := state w in
  mdirect PreferencesProvider.subscription w
  = mkWorld s (listeners w)
      (saveThemePreferences toUTCString parseDate (clock w) s
         (mkDocument (updateTheme s (documentElement (document w)))
            (cookies (document w))))
      (mkProvider s (isHydrated (provider w))) (clock w)
      (trace w ++ [EPreferences s; EDom s; ECookie s]).
Proof.
  simpl. unfold log, with_document, with_provider; simpl.
  by rewrite <- !app_assoc.
Qed.

Lemma notify_all_subscription cb ls w :
  cb ∈ ls → bodies cb = PreferencesProvider.subscription →
  ∃ t1 t2,
    trace (mnotify_all ls w)
    = trace w ++ t1
      ++ [ENotified cb; EPreferences (state w); EDom (state w);
          ECookie (state w)] ++ t2.
Proof.
  intros Hin Hcb. revert w.
  induction ls as [|l ls IH]; intros w; [by apply elem_of_nil in Hin|].
  rewrite notify_all_cons.
  destruct (decide (l = cb)) as [->|Hne].
  - destruct (notify_all_trace ls
                (mdirect (bodies cb) (log (ENotified cb) w)))
      as (t2 & -> & _).
    rewrite Hcb, direct_subscription. simpl.
    exists [], t2. by rewrite <- !app_assoc.
  - apply elem_of_cons in Hin as [->|Hin]; [done|].
    destruct (IH Hin (mdirect (bodies l) (log (ENotified l) w)))
      as (t1 & t2 & ->).
    destruct (direct_store (bodies l) (log (ENotified l) w)) as (-> & _).
    destruct (direct_trace (bodies l) (log (ENotified l) w))
      as (evs & -> & _).
    exists (ENotified l :: evs ++ t1), t2. simpl.
    by rewrite <- !app_assoc.
Qed.

Lemma notify_all_provider ls w :
  (∀ l, bodies l = PreferencesProvider.subscription) →
  provider (mnotify_all ls w)
  = match ls with
    | [] => provider w
    | _ => mkProvider (state w) (isHydrated (provider w))
    end.
Proof.
  intros Hb. revert w. induction ls as [|l ls IH]; intros w; [done|].
  rewrite notify_all_cons, IH, Hb, direct_subscription. simpl.
  by destruct ls.
Qed.

Lemma Quiet_subscription : Quiet PreferencesProvider.subscription.
Proof. repeat constructor. Qed.

Lemma Quiet_NoSetState p : Quiet p → NoSetState p.
Proof. induction 1; by constructor. Qed.

Lemma setState_done_quiet :
  (∀ l, Quiet (bodies l)) →
  ∀ ns w, ∃ fuel,
    mrun fuel (SetState ns Done) w
    = Some (mnotify_all (listeners w)
              (log (EState (spread (state w) ns))
                 (with_state (spread (state w) ns) w))).
Proof.
  intros Hq ns w. destruct (setState_quiet Hq ns Done w) as [n Hn].
  exists (n + 1). apply run_of_steps. by rewrite steps_add, Hn.
Qed.

(** C1: when no listener itself calls [setState], any sequence of
    [setThemeMode] and [setThemePreset] calls returns, and [getState]
    then has the last mode passed (the initial one if none was) and the
    last preset passed (the initial one if none was); a partial with one
    field leaves the other field as it was. *)
Theorem setters_last_write_wins (cs : list Call) (w : World) :
  (∀ l, NoSetState (bodies l)) →
  (∃ fuel w',
     mrun fuel (calls_prog cs) w = Some w'
     ∧ mode (state w') = last_mode cs (mode (state w))
     ∧ preset (state w') = last_preset cs (preset (state w)))
  ∧ (∀ s m, spread s {| p_mode := Some m; p_preset := None |}
            = {| mode := m; preset := preset s |})
  ∧ (∀ s p, spread s {| p_mode := None; p_preset := Some p |}
            = {| mode := mode s; preset := p |}).
Proof.
  intros Hb. split; [|done].
  destruct (calls_run Hb cs w) as (n & w' & Hn & Hm & Hp).
  exists n, w'. split; [|done]. by apply run_of_steps.
Qed.

(** C10: [setState] detects no change: when the listeners are quiet, every
    call returns having notified each registered listener once, in order,
    whatever the new state is, equal to the old one or not; and the
    provider's subscription, if registered, has applied the state to the
    DOM and written the cookies again. *)
Theorem setState_always_notifies (ns : PartialPreferences) (w : World) :
  (∀ l, Quiet (bodies l)) →
  ∃ fuel w',
    mrun fuel (SetState ns Done) w = Some w'
    ∧ state w' = spread (state w) ns
    ∧ (∃ evs, trace w' = trace w ++ EState (state w') :: evs
              ∧ notified evs = listeners w)
    ∧ (∀ cb, cb ∈ listeners w →
         bodies cb = PreferencesProvider.subscription →
         ∃ t1 t2 t3,
           trace w' = trace w ++ t1 ++ EDom (state w') :: t2
                      ++ ECookie (state w') :: t3).
Proof.
  intros Hq. destruct (setState_done_quiet Hq ns w) as [fuel Hrun].
  eexists fuel, _. split; [exact Hrun|].
  set (w0 := log (EState (spread (state w) ns))
               (with_state (spread (state w) ns) w)).
  destruct (notify_all_store (listeners w) w0) as (Hs & _).
  rewrite Hs. split; [done|]. split.
  - destruct (notify_all_trace (listeners w) w0) as (evs & -> & Hn).
    exists evs. simpl. by rewrite <- app_assoc.
  - intros cb Hin Hcb.
    destruct (notify_all_subscription cb (listeners w) w0 Hin Hcb)
      as (t1 & t2 & ->).
    exists (EState (state w0) :: t1
              ++ [ENotified cb; EPreferences (state w0)]), [], t2.
    simpl. rewrite <- !app_assoc. simpl. done.
Qed.

(** C8: the provider's subscription, run on a store change, logs the DOM
    update immediately before the cookie write, both after the store's
    mutation; alone it leaves the document with the cookies written over
    the updated root element. *)
Theorem subscription_dom_before_cookie (ns : PartialPreferences) (w : World) :
  (∀ l, Quiet (bodies l)) →
  (∃ n, ∀ rest,
     msteps n (Run PreferencesProvider.subscription :: rest, w)
     = (rest,
        mkWorld (state w) (listeners w)
          (saveThemePreferences toUTCString parseDate (clock w) (state w)
             (mkDocument
                (updateTheme (state w) (documentElement (document w)))
                (cookies (document w))))
          (mkProvider (state w) (isHydrated (provider w))) (clock w)
          (trace w ++ [EPreferences (state w); EDom (state w);
                       ECookie (state w)])))
  ∧ (∀ cb, cb ∈ listeners w →
       bodies cb = PreferencesProvider.subscription →
       ∃ fuel w' t1 t2,
         mrun fuel (SetState ns Done) w = Some w'
         ∧ state w' = spread (state w) ns
         ∧ trace w'
           = trace w ++ EState (state w') :: t1
             ++ [ENotified cb; EPreferences (state w'); EDom (state w');
                 ECookie (state w')] ++ t2).
Proof.
  intros Hq. split.
  - destruct (quiet_steps _ Quiet_subscription w) as [n Hn].
    exists n. intros rest. rewrite Hn. f_equal. apply direct_subscription.
  - intros cb Hin Hcb.
    destruct (setState_done_quiet Hq ns w) as [fuel Hrun].
    set (w0 := log (EState (spread (state w) ns))
                 (with_state (spread (state w) ns) w)) in *.
    destruct (notify_all_store (listeners w) w0) as (Hs & _).
    destruct (notify_all_subscription cb (listeners w) w0 Hin Hcb)
      as (t1 & t2 & Ht).
    eexists fuel, _, t1, t2. split; [exact Hrun|].
    rewrite Hs, Ht. split; [done|]. simpl. by rewrite <- app_assoc.
Qed.

Lemma toggleTheme_run w :
  (∀ l, bodies l = PreferencesProvider.subscription) →
  listeners w ≠ [] →
  ∃ fuel w',
    mrun fuel
      (PreferencesProvider.cv_toggleTheme
         (PreferencesProvider.value (provider w))) w = Some w'
    ∧ state w'
      = {| mode := if decide (mode (preferences (provider w)) = light)
                   then dark else light;
           preset := preset (state w) |}
    ∧ listeners w' = listeners w
    ∧ provider w' = mkProvider (state w') (isHydrated (provider w)).
Proof.
  intros Hb Hls.
  assert (∀ l, Quiet (bodies l)) as Hq
    by (intros l; rewrite Hb; apply Quiet_subscription).
  set (ns := {| p_mode := Some (if decide (mode (preferences (provider w))
                                           = light) then dark else light);
                p_preset := None |}).
  destruct (setState_done_quiet Hq ns w) as [fuel Hrun].
  eexists fuel, _. split; [exact Hrun|].
  set (w0 := log (EState (spread (state w) ns))
               (with_state (spread (state w) ns) w)).
  destruct (notify_all_store (listeners w) w0) as (-> & -> & _).
  rewrite notify_all_provider by done.
  split; [done|]. split; [done|].
  change (listeners w0) with (listeners w). by destruct (listeners w).
Qed.

(** C5, across renders: with the provider's subscription registered and
    its [preferences] equal to the store's state, [toggleTheme] returns
    having flipped the mode and kept the preset, and the [toggleTheme] of
    the next render brings the store and the provider back to the
    preferences they started from. *)
Theorem toggleTheme_involutive (w : World) :
  (∀ l, bodies l = PreferencesProvider.subscription) →
  listeners w ≠ [] →
  preferences (provider w) = state w →
  ∃ fuel1 w1 fuel2 w2,
    mrun fuel1
      (PreferencesProvider.cv_toggleTheme
         (PreferencesProvider.value (provider w))) w = Some w1
    ∧ mrun fuel2
        (PreferencesProvider.cv_toggleTheme
           (PreferencesProvider.value (provider w1))) w1 = Some w2
    ∧ mode (state w1)
      = match mode (state w) with light => dark | dark => light end
    ∧ preset (state w1) = preset (state w)
    ∧ preferences (provider w1) = state w1
    ∧ state w2 = state w
    ∧ preferences (provider w2) = state w.
Proof.
  intros Hb Hls Hsync.
  destruct (toggleTheme_run w Hb Hls) as (f1 & w1 & Hr1 & Hs1 & Hl1 & Hp1).
  destruct (toggleTheme_run w1 Hb) as (f2 & w2 & Hr2 & Hs2 & Hl2 & Hp2);
    [by rewrite Hl1|].
  exists f1, w1, f2, w2.
  assert (state w2 = state w) as Hback.
  { rewrite Hs2, Hp1, Hs1, Hsync. simpl.
    destruct (state w) as [[] ?]; done. }
  split; [done|]. split; [done|].
  rewrite Hp2, Hp1, Hs1, Hsync. simpl.
  repeat split; try done. by destruct (mode (state w)).
Qed.

Lemma step_stays_hydrated c :
  (∀ l, StaysHydrated (bodies l)) →
  Forall (frame_ok StaysHydrated) c.1 → isHydrated (provider c.2) = true →
  Forall (frame_ok StaysHydrated) (mstep c).1
  ∧ isHydrated (provider (mstep c).2) = true.
Proof.
  intros Hb Hstk Hh. destruct c as [[|f rest] w]; [done|].
  apply Forall_cons in Hstk as [Hf Hrest]. unfold step; simpl.
  destruct f as [p|k len]; simpl in *.
  - inversion Hf; subst; simpl;
      (split; [repeat (apply Forall_cons; split); simpl; auto | done]).
  - destruct (decide (k < len)); [|done].
    destruct (listeners w !! k) as [l'|]; simpl;
      (split; [repeat (apply Forall_cons; split); simpl; auto | done]).
Qed.

Lemma steps_stay_hydrated n c :
  (∀ l, StaysHydrated (bodies l)) →
  Forall (frame_ok StaysHydrated) c.1 → isHydrated (provider c.2) = true →
  isHydrated (provider (msteps n c).2) = true.
Proof.
  intros Hb. revert c. induction n as [|n IH]; intros c Hstk Hh; [done|].
  simpl. destruct (step_stays_hydrated c Hb Hstk Hh). by apply IH.
Qed.

(** C9: the first render is hidden; the mount effect, run on the fresh
    store, returns with the store holding [initialPreferences], the root
    element updated to them and only then [isHydrated] set, after which
    the provider renders its children under the context; and from a
    hydrated provider no run of the provider's code, of the store's
    setters or of callbacks that never call [setIsHydrated(false)] reaches
    a hidden render again. *)
Theorem provider_hydration (initialPreferences : ThemePreferences)
    (cb : Listener) (d : Document) (now : Z) :
  PreferencesProvider.render
    (PreferencesProvider.initialState initialPreferences)
  = PreferencesProvider.HiddenDiv
  ∧ (∃ fuel w',
       mrun fuel (PreferencesProvider.effect initialPreferences cb)
         (PreferencesStore.initial d
            (PreferencesProvider.initialState initialPreferences) now)
       = Some w'
       ∧ state w' = initialPreferences
       ∧ provider w' = mkProvider initialPreferences true
       ∧ documentElement (document w')
         = updateTheme initialPreferences (documentElement d)
       ∧ listeners w' = [cb]
       ∧ trace w'
         = [EState initialPreferences; EPreferences initialPreferences;
            EDom initialPreferences; EHydrated true; ESubscribed cb]
       ∧ PreferencesProvider.render (provider w')
         = PreferencesProvider.ContextProvider
             (PreferencesProvider.value (provider w')))
  ∧ (StaysHydrated PreferencesProvider.subscription
     ∧ (∀ p c, StaysHydrated (PreferencesProvider.effect p c))
     ∧ (∀ c, StaysHydrated (PreferencesProvider.cleanup c))
     ∧ (∀ m, StaysHydrated (PreferencesProvider.setThemeMode m))
     ∧ (∀ p, StaysHydrated (PreferencesProvider.setThemePreset p))
     ∧ (∀ p, StaysHydrated (PreferencesProvider.toggleTheme p)))
  ∧ ((∀ l, StaysHydrated (bodies l)) →
     ∀ stk w n,
       Forall (frame_ok StaysHydrated) stk →
       isHydrated (provider w) = true →
       isHydrated (provider (msteps n (stk, w)).2) = true
       ∧ PreferencesProvider.render (provider (msteps n (stk, w)).2)
         ≠ PreferencesProvider.HiddenDiv).
Proof.
  split; [done|]. split; [|split].
  - exists 7. eexists. split; [reflexivity|]. simpl.
    destruct initialPreferences. done.
  - repeat split; intros; repeat constructor.
  - intros Hb stk w n Hstk Hh.
    pose proof (steps_stay_hydrated n (stk, w) Hb Hstk Hh) as H.
    split; [done|]. unfold PreferencesProvider.render. by rewrite H.
Qed.

Lemma silent_inv_log L tr0 stk stk' w w' e :
  silent_inv L tr0 (stk, w) →
  Forall (frame_ok (NoSubscribe L)) stk' →
  occurrences L (listeners w') ≤ 1 →
  trace w' = trace w ++ [e] →
  (e = ENotified L → L ∈ listeners w) →
  (L ∉ listeners w → L ∉ listeners w') →
  (e = EUnsubscribed L → L ∉ listeners w') →
  silent_inv L tr0 (stk', w').
Proof.
  intros (_ & _ & evs & Htr & Hsil & Hun) Hstk Hocc Htr' Hnot Hkeep Hgone.
  split; [done|]. split; [done|]. exists (evs ++ [e]). simpl in *.
  split; [by rewrite Htr', Htr, app_assoc|]. split.
  - apply silenced_snoc; [done|]. intros He Hin.
    by apply (Hun Hin), Hnot.
  - intros [Hin|Hin]%elem_of_app; [by apply Hkeep, Hun|].
    apply list_elem_of_singleton in Hin. by apply Hgone.
Qed.

#[local] Ltac frames :=
  repeat (apply Forall_cons; split); simpl; auto.

Lemma step_silent L tr0 c :
  (∀ l, NoSubscribe L (bodies l)) →
  silent_inv L tr0 c → silent_inv L tr0 (mstep c).
Proof.
  intros Hb Hinv. destruct c as [[|f rest] w]; [done|].
  pose proof Hinv as (Hstk & Hocc & evs & Htr & Hsil & Hun).
  simpl in Hstk, Hocc, Htr, Hun.
  apply Forall_cons in Hstk as [Hf Hrest]. unfold step; simpl.
  destruct f as [p|k len]; simpl in *.
  - inversion Hf as [|k Hk|ns k Hk|l k Hl Hk|l k Hk|p' k Hk|b k Hk
                     |p' k Hk|p' k Hk]; subst; simpl.
    + split; [done|]. split; [done|]. by exists evs.
    + split; [frames|]. split; [done|]. by exists evs.
    + eapply silent_inv_log; try exact Hinv; simpl; try done.
      frames.
    + eapply silent_inv_log; try exact Hinv; simpl; try done.
      * frames.
      * rewrite occurrences_snoc. by rewrite decide_False.
      * intros Hnot [Hin|Hin]%elem_of_app; [done|].
        by apply list_elem_of_singleton in Hin.
    + eapply silent_inv_log; try exact Hinv; simpl; try done.
      * frames.
      * etrans; [apply occurrences_unsubscribe_le | done].
      * intros Hnot Hin. by apply Hnot, (elem_of_unsubscribe _ l).
      * intros [= ->]. by apply unsubscribe_once.
    + eapply silent_inv_log; try exact Hinv; simpl; try done.
      frames.
    + eapply silent_inv_log; try exact Hinv; simpl; try done.
      frames.
    + eapply silent_inv_log; try exact Hinv; simpl; try done.
      frames.
    + eapply silent_inv_log; try exact Hinv; simpl; try done.
      frames.
  - destruct (decide (k < len)).
    + destruct (listeners w !! k) as [l'|] eqn:Hk; simpl.
      * eapply silent_inv_log; try exact Hinv; simpl; try done.
        -- frames.
        -- intros [= ->]. by eapply list_elem_of_lookup_2.
      * split; [frames|]. split; [done|]. by exists evs.
    + split; [done|]. split; [done|]. by exists evs.
Qed.

Lemma steps_silent L tr0 n c :
  (∀ l, NoSubscribe L (bodies l)) →
  silent_inv L tr0 c → silent_inv L tr0 (msteps n c).
Proof.
  intros Hb. revert c. induction n as [|n IH]; intros c Hinv; [done|].
  simpl. by apply IH, step_silent.
Qed.

(** C2, for a callback that is registered at most once and that nothing
    subscribes again: its [unsubscribe] removes it and nothing else and
    does nothing when called again, and in every run, finished or not,
    from the top level or from inside other listeners, no notification of
    it follows its [unsubscribe]. *)
Theorem unsubscribe_silences (L : Listener) :
  (∀ ls : list Listener,
     occurrences L ls ≤ 1 →
     unsubscribe L ls = filter (λ l, l ≠ L) ls
     ∧ unsubscribe L (unsubscribe L ls) = unsubscribe L ls)
  ∧ ((∀ l, NoSubscribe L (bodies l)) →
     ∀ stk w n,
       Forall (frame_ok (NoSubscribe L)) stk →
       occurrences L (listeners w) ≤ 1 →
       ∃ evs, trace (msteps n (stk, w)).2 = trace w ++ evs
              ∧ silenced L evs).
Proof.
  split.
  - intros ls Hocc. destruct (unsubscribe_once L ls Hocc) as [Heq Hnot].
    split; [done|]. by apply unsubscribe_absent.
  - intros Hb stk w n Hstk Hocc.
    assert (silent_inv L (trace w) (stk, w)) as Hinv.
    { split; [done|]. split; [done|]. exists []. simpl.
      rewrite app_nil_r. split; [done|].
      split; [|by intros Hin%elem_of_nil].
      intros t1 t2 Heq. by destruct t1. }
    destruct (steps_silent L (trace w) n _ Hb Hinv)
      as (_ & _ & evs & Htr & Hsil & _).
    by exists evs.
Qed.

End MachineFacts.

(** ** The context hook *)

(** C7, for the context hook of preferences-provider.tsx: outside a
    provider it throws, and so it does under a provider that is not
    hydrated yet, which renders its children without the context; it
    returns the context value only under a hydrated provider. The
    store-level hook of preferences-store.ts never throws: it returns the
    store's state. *)
Theorem usePreferences_throws_outside_provider
    (initialPreferences : ThemePreferences) :
  PreferencesProvider.usePreferences None
  = Thrown "usePreferences must be used within a PreferencesProvider"
  ∧ (∀ v, PreferencesProvider.usePreferences None ≠ Returned v)
  ∧ PreferencesProvider.usePreferences
      (PreferencesProvider.useContext None
         (PreferencesProvider.render
            (PreferencesProvider.initialState initialPreferences)))
    = Thrown "usePreferences must be used within a PreferencesProvider"
  ∧ PreferencesProvider.usePreferences
      (PreferencesProvider.useContext None
         (PreferencesProvider.render (mkProvider initialPreferences true)))
    = Returned
        (PreferencesProvider.value (mkProvider initialPreferences true))
  ∧ (∀ w, ∃ v, PreferencesStore.usePreferences w = Returned v
               ∧ PreferencesStore.theme v = state w).
Proof. repeat split; try done. intros w. by eexists. Qed.

(** C7 as stated fails for the hook of the same name exported by
    preferences-store.ts: with no provider anywhere, on the store as the
    module creates it, it returns the default preferences. *)
Lemma usePreferences_store_hook_counterexample :
  ∃ v,
    PreferencesStore.usePreferences
      (PreferencesStore.initial (mkDocument (mkElement [] ∅) [])
         (PreferencesProvider.initialState DEFAULT_THEME_PREFERENCES) 0)
    = Returned v
    ∧ PreferencesStore.theme v = DEFAULT_THEME_PREFERENCES.
Proof. by eexists. Qed.

(** ** Concrete runs *)

Lemma sample_bodies_quiet l : Quiet (sample_bodies l).
Proof. repeat constructor. Qed.

Lemma setters_last_write_wins_witness :
  ∃ fuel w',
    run sample_toUTCString sample_parseDate sample_bodies fuel
      (calls_prog [CallSetThemeMode dark; CallSetThemePreset tangerine;
                   CallSetThemeMode light])
      sample_world = Some w'
    ∧ mode (state w') = light
    ∧ preset (state w') = tangerine.
Proof.
  apply (proj1 (setters_last_write_wins sample_toUTCString sample_parseDate sample_bodies
                  [CallSetThemeMode dark; CallSetThemePreset tangerine;
                   CallSetThemeMode light] sample_world
                  (λ l, Quiet_NoSetState _ (sample_bodies_quiet l)))).
Defined.

Lemma setState_always_notifies_witness :
  ∃ fuel w',
    run sample_toUTCString sample_parseDate sample_bodies fuel
      (SetState (full DEFAULT_THEME_PREFERENCES) Done) sample_world = Some w'
    ∧ state w' = state sample_world
    ∧ (∃ evs, trace w' = EState (state w') :: evs ∧ notified evs = [0])
    ∧ (∀ cb, cb ∈ [0] →
         sample_bodies cb = PreferencesProvider.subscription →
         ∃ t1 t2 t3,
           trace w' = t1 ++ EDom (state w') :: t2
                      ++ ECookie (state w') :: t3).
Proof.
  apply (setState_always_notifies sample_toUTCString sample_parseDate sample_bodies
           (full DEFAULT_THEME_PREFERENCES) sample_world
           sample_bodies_quiet).
Defined.

Lemma subscription_dom_before_cookie_witness :
  ∃ fuel w' t1 t2,
    run sample_toUTCString sample_parseDate sample_bodies fuel
      (SetState {| p_mode := Some dark; p_preset := None |} Done)
      sample_world = Some w'
    ∧ state w' = mkPrefs dark default
    ∧ trace w'
      = EState (state w') :: t1
        ++ [ENotified 0; EPreferences (state w'); EDom (state w');
            ECookie (state w')] ++ t2.
Proof.
  apply (proj2 (subscription_dom_before_cookie sample_toUTCString sample_parseDate
                  sample_bodies {| p_mode := Some dark; p_preset := None |}
                  sample_world sample_bodies_quiet) 0);
    [by left | reflexivity].
Defined.

Lemma toggleTheme_involutive_witness :
  ∃ fuel1 w1 fuel2 w2,
    run sample_toUTCString sample_parseDate sample_bodies fuel1
      (PreferencesProvider.cv_toggleTheme
         (PreferencesProvider.value (provider sample_world)))
      sample_world = Some w1
    ∧ run sample_toUTCString sample_parseDate sample_bodies fuel2
        (PreferencesProvider.cv_toggleTheme
           (PreferencesProvider.value (provider w1))) w1 = Some w2
    ∧ mode (state w1) = dark
    ∧ preset (state w1) = default
    ∧ preferences (provider w1) = state w1
    ∧ state w2 = DEFAULT_THEME_PREFERENCES
    ∧ preferences (provider w2) = DEFAULT_THEME_PREFERENCES.
Proof.
  apply (toggleTheme_involutive sample_toUTCString sample_parseDate sample_bodies
           sample_world); [reflexivity | discriminate | reflexivity].
Defined.

Lemma provider_hydration_witness :
  isHydrated
    (provider
       (steps sample_toUTCString sample_parseDate sample_bodies 40
          ([Run (PreferencesProvider.cleanup 0);
            Run (PreferencesProvider.effect (mkPrefs dark brutalist) 1);
            Run (PreferencesProvider.toggleTheme (mkPrefs dark brutalist))],
           sample_world)).2) = true.
Proof.
  apply (proj2 (proj2 (proj2 (provider_hydration sample_toUTCString sample_parseDate
                                sample_bodies DEFAULT_THEME_PREFERENCES 0
                                (document sample_world) 0)))).
  - intros l. repeat constructor.
  - repeat constructor.
  - reflexivity.
Defined.


Lemma unsubscribe_silences_witness :
  ∃ evs,
    trace
      (steps sample_toUTCString sample_parseDate meddling_bodies 20
         ([Run (PreferencesStore.setThemeMode dark Done)], meddled_world)).2
    = trace meddled_world ++ evs
    ∧ silenced 1 evs.
Proof.
  apply (proj2 (unsubscribe_silences sample_toUTCString sample_parseDate meddling_bodies 1)).
  - intros [|[|l]]; repeat constructor; lia.
  - repeat constructor.
  - vm_compute. lia.
Defined.

(** A pass in which listener [0] unsubscribes listener [1]: listener [1]
    is not notified in that pass. *)
Example unsubscribe_during_pass :
  run sample_toUTCString sample_parseDate meddling_bodies 20
    (PreferencesStore.setThemeMode dark Done) meddled_world
  = Some (mkWorld (mkPrefs dark default) [0; 2] (document meddled_world)
            (provider meddled_world) 0
            [EState (mkPrefs dark default); ENotified 0; EUnsubscribed 1;
             ENotified 2]).
Proof. reflexivity. Qed.

(** C2 as stated fails for a callback registered twice: after one call of
    its [unsubscribe] it is still notified, and a second call of the same
    [unsubscribe] removes the other registration. *)
Lemma unsubscribe_shared_callback_counterexample :
  (∃ w', run sample_toUTCString sample_parseDate (λ _, Done) 10 shared_callback_prog
           (PreferencesStore.initial (mkDocument (mkElement [] ∅) [])
              (mkProvider DEFAULT_THEME_PREFERENCES true) 0) = Some w'
         ∧ trace w'
           = [ESubscribed 0; ESubscribed 0; EUnsubscribed 0;
              EState DEFAULT_THEME_PREFERENCES; ENotified 0]
         ∧ ¬ silenced 0 (trace w'))
  ∧ unsubscribe 0 ([] ++ [0] ++ [0]) = [0]
  ∧ unsubscribe 0 (unsubscribe 0 ([] ++ [0] ++ [0]))
    ≠ unsubscribe 0 ([] ++ [0] ++ [0]).
Proof.
  split; [|split; [reflexivity | discriminate]].
  eexists. split; [reflexivity|]. split; [reflexivity|].
  intros H.
  apply (H [ESubscribed 0; ESubscribed 0]
           [EState DEFAULT_THEME_PREFERENCES; ENotified 0]); [reflexivity|].
  right. left.
Qed.

(** C5 as stated fails when the two calls are of the [toggleTheme] of one
    render: it reads the mode that render closed over, so the second call
    sets the same mode again and the original mode is not restored. *)
Lemma toggleTheme_same_render_counterexample :
  let toggle :=
    PreferencesProvider.cv_toggleTheme
      (PreferencesProvider.value (provider sample_world)) in
  ∃ w1 w2,
    run sample_toUTCString sample_parseDate sample_bodies 10 toggle
      sample_world = Some w1
    ∧ run sample_toUTCString sample_parseDate sample_bodies 10 toggle w1
      = Some w2
    ∧ mode (state sample_world) = light
    ∧ mode (state w1) = dark
    ∧ mode (state w2) = dark
    ∧ mode (state w2) ≠ mode (state sample_world).
Proof.
  do 2 eexists.
  split; [vm_compute; reflexivity|]. split; [vm_compute; reflexivity|].
  done.
Qed.

(** [forEach] reads the array as it is when it reaches an index: a listener
    that unsubscribes itself moves the next one into the slot the pass has
    just left, and that one is not called in this pass. *)
Example self_unsubscribe_skips_next :
  run sample_toUTCString sample_parseDate one_shot_bodies 20
    (PreferencesStore.setThemeMode dark Done) meddled_world
  = Some (mkWorld (mkPrefs dark default) [1; 2] (document meddled_world)
            (provider meddled_world) 0
            [EState (mkPrefs dark default); ENotified 0; EUnsubscribed 0;
             ENotified 2]).
Proof. reflexivity. Qed.

(** * Further properties *)

(** ** subscribe and unsubscribe on the listener array *)

Section ListenerArray.

Lemma occurrences_unsubscribe L (ls : list Listener) :
  occurrences L (unsubscribe L ls) = pred (occurrences L ls).
Proof.
  induction ls as [|l ls IH]; [done|].
  rewrite unsubscribe_cons, occurrences_cons.
  destruct (decide (l = L)) as [->|Hne]; [done|].
  rewrite occurrences_cons, decide_False by done. done.
Qed.

Lemma unsubscribe_others L (ls : list Listener) :
  filter (λ l, l ≠ L) (unsubscribe L ls) = filter (λ l, l ≠ L) ls.
Proof.
  induction ls as [|l ls IH]; [done|].
  rewrite unsubscribe_cons, (filter_cons _ l).
  destruct (decide (l = L)) as [->|Hne].
  - rewrite decide_False by (intros H; by apply H). done.
  - rewrite decide_True by done. rewrite filter_cons, decide_True by done.
    by rewrite IH.
Qed.

Lemma unsubscribe_length L (ls : list Listener) :
  L ∈ ls → S (length (unsubscribe L ls)) = length ls.
Proof.
  induction ls as [|l ls IH]; [by intros ?%elem_of_nil|].
  rewrite unsubscribe_cons.
  destruct (decide (l = L)) as [->|Hne]; [done|].
  intros [->|Hin]%elem_of_cons; [done|]. simpl. by rewrite IH.
Qed.

(** X1: The function returned by [subscribe] does nothing when its callback is
    no longer registered; otherwise it removes one registration of it, the
    array gets one shorter, and the other callbacks keep their places
    relative to each other. *)
Theorem unsubscribe_removes_one (L : Listener) (ls : list Listener) :
  (L ∉ ls → unsubscribe L ls = ls)
  ∧ (L ∈ ls →
     S (length (unsubscribe L ls)) = length ls
     ∧ S (occurrences L (unsubscribe L ls)) = occurrences L ls)
  ∧ filter (λ l, l ≠ L) (unsubscribe L ls) = filter (λ l, l ≠ L) ls.
Proof.
  split; [apply unsubscribe_absent|]. split; [|apply unsubscribe_others].
  intros Hin. split; [by apply unsubscribe_length|].
  rewrite occurrences_unsubscribe.
  destruct (occurrences L ls) eqn:E; [|done].
  by apply occurrences_zero in E.
Qed.

Lemma unsubscribe_removes_one_witness :
  unsubscribe 9 [4; 5] = [4; 5]
  ∧ S (length (unsubscribe 5 [4; 5; 6; 5])) = 4
  ∧ S (occurrences 5 (unsubscribe 5 [4; 5; 6; 5])) = 2.
Proof.
  split.
  - apply (proj1 (unsubscribe_removes_one 9 [4; 5])).
    by apply (bool_decide_unpack _).
  - apply (proj1 (proj2 (unsubscribe_removes_one 5 [4; 5; 6; 5]))).
    by apply (bool_decide_unpack _).
Defined.

Lemma unsubscribe_snoc_present L l (ls : list Listener) :
  L ∈ ls → unsubscribe L (ls ++ [l]) = unsubscribe L ls ++ [l].
Proof.
  induction ls as [|l' ls IH]; [by intros ?%elem_of_nil|].
  simpl. rewrite !unsubscribe_cons.
  destruct (decide (l' = L)) as [->|Hne]; [done|].
  intros [->|Hin]%elem_of_cons; [done|]. simpl. by rewrite IH.
Qed.

Lemma unsubscribe_snoc_absent L (ls : list Listener) :
  L ∉ ls → unsubscribe L (ls ++ [L]) = ls.
Proof.
  induction ls as [|l ls IH].
  - intros _. simpl. rewrite unsubscribe_cons. by rewrite decide_True.
  - intros [Hne Hin]%not_elem_of_cons. simpl. rewrite unsubscribe_cons.
    rewrite decide_False by congruence. by rewrite IH.
Qed.

Lemma unsubscribe_perm L (ls : list Listener) :
  L ∈ ls → L :: unsubscribe L ls ≡ₚ ls.
Proof.
  induction ls as [|l ls IH]; [by intros ?%elem_of_nil|].
  rewrite unsubscribe_cons.
  destruct (decide (l = L)) as [->|Hne]; [done|].
  intros [->|Hin]%elem_of_cons; [done|].
  rewrite Permutation_swap. by rewrite IH.
Qed.

(** X2: [subscribe(f)] followed by the [unsubscribe] it returned gives the
    array back when [f] was not registered before. When it was, it is the
    earlier registration that goes and the new one stays at the end: the
    same callbacks as before, possibly in another order. *)
Theorem subscribe_unsubscribe_roundtrip (L : Listener) (ls : list Listener) :
  (L ∉ ls → unsubscribe L (ls ++ [L]) = ls)
  ∧ (L ∈ ls → unsubscribe L (ls ++ [L]) = unsubscribe L ls ++ [L])
  ∧ unsubscribe L (ls ++ [L]) ≡ₚ ls.
Proof.
  split; [apply unsubscribe_snoc_absent|].
  split; [apply unsubscribe_snoc_present|].
  destruct (decide (L ∈ ls)) as [Hin|Hnot].
  - rewrite unsubscribe_snoc_present by done.
    rewrite <- Permutation_cons_append. by apply unsubscribe_perm.
  - by rewrite unsubscribe_snoc_absent.
Qed.

Lemma subscribe_unsubscribe_roundtrip_witness :
  unsubscribe 3 ([1; 2] ++ [3]) = [1; 2]
  ∧ unsubscribe 1 ([1; 2] ++ [1]) = unsubscribe 1 [1; 2] ++ [1].
Proof.
  split.
  - apply (proj1 (subscribe_unsubscribe_roundtrip 3 [1; 2])).
    by apply (bool_decide_unpack _).
  - apply (proj1 (proj2 (subscribe_unsubscribe_roundtrip 1 [1; 2]))).
    by apply (bool_decide_unpack _).
Defined.

End ListenerArray.

(** ** More on the store's notification pass *)

Section Notification.

Variable toUTCString : Z → string.
Variable parseDate : string → option Z.
Variable bodies : Listener → Prog.

#[local] Abbreviation msteps := (steps toUTCString parseDate bodies).
#[local] Abbreviation mstep := (step toUTCString parseDate bodies).
#[local] Abbreviation mrun := (run toUTCString parseDate bodies).

Lemma step_reentering l ns k c :
  bodies l = SetState ns k → reentering l c → reentering l (mstep c).
Proof.
  intros Hb [Hl Htop]. destruct c as [[|f rest] w]; [done|].
  unfold step; simpl in *.
  destruct f as [p|i len]; [destruct p; try done|].
  - split; [done|]. simpl. apply lookup_lt_Some in Hl. done.
  - destruct i; [|done]. unfold step_frame.
    rewrite decide_True by done. rewrite Hl, Hb. done.
Qed.

Lemma steps_reentering l ns k n c :
  bodies l = SetState ns k → reentering l c → reentering l (msteps n c).
Proof.
  intros Hb. revert c. induction n as [|n IH]; intros c Hc; [done|].
  simpl. by eapply IH, step_reentering.
Qed.

Lemma two_steps_reenter l ns k c :
  bodies l = SetState ns k →
  listeners c.2 !! 0 = Some l →
  (∃ ns' k' rest, c.1 = Run (SetState ns' k') :: rest) →
  listeners (msteps 2 c).2 !! 0 = Some l
  ∧ (∃ rest, (msteps 2 c).1 = Run (SetState ns k) :: rest)
  ∧ length (msteps 2 c).1 = length c.1 + 2.
Proof.
  intros Hb Hl (ns' & k' & rest & Hc). destruct c as [stk w].
  simpl in Hl, Hc. subst stk.
  pose proof (lookup_lt_Some _ _ _ Hl) as Hlen.
  change (msteps 2 (Run (SetState ns' k') :: rest, w))
    with (mstep (mstep (Run (SetState ns' k') :: rest, w))).
  unfold step; simpl.
  rewrite decide_True by done. rewrite Hl, Hb. simpl.
  split; [done|]. split; [by eexists|]. lia.
Qed.

Lemma steps_reenter_depth l ns k ns0 k0 w n :
  bodies l = SetState ns k →
  listeners w !! 0 = Some l →
  let c := msteps (2 * n) ([Run (SetState ns0 k0)], w) in
  listeners c.2 !! 0 = Some l
  ∧ (∃ ns' k' rest, c.1 = Run (SetState ns' k') :: rest)
  ∧ length c.1 = 2 * n + 1.
Proof.
  intros Hb Hl. induction n as [|n IH].
  - simpl. split; [done|]. split; [by do 3 eexists | done].
  - replace (2 * S n) with (2 * n + 2) by lia.
    rewrite steps_add. cbv zeta in IH. destruct IH as (Hl' & Htop & Hlen).
    destruct (two_steps_reenter l ns k _ Hb Hl' Htop) as (H1 & [r H2] & H3).
    split; [done|]. split; [by do 3 eexists|]. lia.
Qed.

(** X3: When the callback first in the array starts by calling [setState],
    without a condition, a call of [setState] never comes to its end:
    every notification of that callback begins a new pass before the pass
    it is in goes on, so the stack of pending calls grows by two frames
    with each re-entry, beyond any limit (the point at which an engine
    throws its stack overflow), and no amount of fuel lets the call
    return. *)
Theorem reentrant_setState_grows_stack (l : Listener)
    (ns : PartialPreferences) (k : Prog) (w : World) :
  listeners w !! 0 = Some l →
  bodies l = SetState ns k →
  ∀ ns0 k0,
    (∀ n, length (msteps (2 * n) ([Run (SetState ns0 k0)], w)).1
          = 2 * n + 1)
    ∧ (∀ fuel, mrun fuel (SetState ns0 k0) w = None).
Proof.
  intros Hl Hb ns0 k0. split.
  - intros n. by apply (steps_reenter_depth l ns k ns0 k0 w n Hb Hl).
  - intros fuel. unfold run.
    pose proof (steps_reentering l ns k fuel
                  ([Run (SetState ns0 k0)], w) Hb) as [_ Htop]; [done|].
    destruct (msteps fuel ([Run (SetState ns0 k0)], w)) as [[|f rest] w'];
      done.
Qed.

#[local] Ltac logged_step IH e w0 :=
  let n := fresh "n" in
  let w' := fresh "w'" in
  let evs := fresh "evs" in
  let Hn := fresh "Hn" in
  let Ht := fresh "Ht" in
  let He := fresh "He" in
  destruct (IH (log e w0)) as (n & w' & evs & Hn & Ht & He);
  exists (S n), w', (e :: evs);
  split; [intros rest; apply Hn|];
  rewrite Ht; simpl; split; [by rewrite <- app_assoc | exact He].

Lemma noSetState_steps_trace p :
  NoSetState p → ∀ w, ∃ n w' evs,
    (∀ rest, msteps n (Run p :: rest, w) = (rest, w'))
    ∧ trace w' = trace w ++ evs ∧ notified evs = [].
Proof.
  induction 1 as [|k Hk IH|l k Hk IH|l k Hk IH|p k Hk IH|b k Hk IH
                  |p k Hk IH|p k Hk IH]; intros w.
  - exists 1, w, []. by rewrite app_nil_r.
  - destruct (IH (state w) w) as (n & w' & evs & Hn & Ht & He).
    exists (S n), w', evs. split; [|done]. intros rest. apply Hn.
  - logged_step IH (ESubscribed l) (with_listeners (listeners w ++ [l]) w).
  - logged_step IH (EUnsubscribed l)
      (with_listeners (unsubscribe l (listeners w)) w).
  - logged_step IH (EPreferences p)
      (with_provider (mkProvider p (isHydrated (provider w))) w).
  - logged_step IH (EHydrated b)
      (with_provider (mkProvider (preferences (provider w)) b) w).
  - logged_step IH (EDom p)
      (with_document
         (mkDocument (updateTheme p (documentElement (document w)))
            (cookies (document w))) w).
  - logged_step IH (ECookie p)
      (with_document
         (saveThemePreferences toUTCString parseDate (clock w) p (document w)) w).
Qed.

Lemma noSetState_forEach_trace :
  (∀ l, NoSetState (bodies l)) →
  ∀ d k len w, len - k = d → ∃ n w' evs,
    (∀ rest, msteps n (ForEach k len :: rest, w) = (rest, w'))
    ∧ trace w' = trace w ++ evs ∧ length (notified evs) ≤ d.
Proof.
  intros Hb d. induction d as [|d IH]; intros k len w Hd.
  - exists 1, w, []. rewrite app_nil_r. split; [|done]. intros rest.
    simpl. unfold step; simpl. by rewrite decide_False by lia.
  - destruct (listeners w !! k) as [l|] eqn:Hk.
    + destruct (noSetState_steps_trace _ (Hb l) (log (ENotified l) w))
        as (n1 & w1 & evs1 & Hn1 & Ht1 & He1).
      destruct (IH (S k) len w1) as (n2 & w2 & evs2 & Hn2 & Ht2 & He2);
        [lia|].
      exists (S (n1 + n2)), w2, (ENotified l :: evs1 ++ evs2). split.
      * intros rest. simpl. unfold step; simpl.
        rewrite decide_True by lia. rewrite Hk, steps_add, Hn1. apply Hn2.
      * rewrite Ht2, Ht1. simpl. rewrite <- !app_assoc. split; [done|].
        unfold notified in *. simpl. rewrite omap_app, He1. simpl. lia.
    + destruct (IH (S k) len w) as (n2 & w2 & evs2 & Hn2 & Ht2 & He2);
        [lia|].
      exists (S n2), w2, evs2. split; [|split; [done | lia]].
      intros rest. simpl. unfold step; simpl.
      rewrite decide_True by lia. rewrite Hk. apply Hn2.
Qed.

(** X4: When no listener calls [setState], a call of [setState] returns
    after at most as many notifications as there were registered
    callbacks when it was made, whatever the listeners subscribe or
    unsubscribe during the pass. *)
Theorem setState_pass_is_bounded (ns : PartialPreferences) (w : World) :
  (∀ l, NoSetState (bodies l)) →
  ∃ fuel w' evs,
    mrun fuel (SetState ns Done) w = Some w'
    ∧ trace w' = trace w ++ EState (spread (state w) ns) :: evs
    ∧ length (notified evs) ≤ length (listeners w).
Proof.
  intros Hb.
  destruct (noSetState_forEach_trace Hb (length (listeners w) - 0) 0
              (length (listeners w))
              (log (EState (spread (state w) ns))
                 (with_state (spread (state w) ns) w)))
    as (n & w' & evs & Hn & Ht & He); [done|].
  exists (S (n + 1)), w', evs. split; [|split; [|lia]].
  - apply run_of_steps. simpl. unfold step; simpl.
    by rewrite steps_add, Hn.
  - rewrite Ht. simpl. by rewrite <- app_assoc.
Qed.

End Notification.

Lemma reentrant_setState_grows_stack_witness :
  length
    (steps sample_toUTCString sample_parseDate reentrant_bodies (2 * 500)
       ([Run (PreferencesStore.setThemeMode dark Done)], sample_world)).1
  = 2 * 500 + 1
  ∧ run sample_toUTCString sample_parseDate reentrant_bodies 1000
      (PreferencesStore.setThemeMode dark Done) sample_world = None.
Proof.
  pose proof (reentrant_setState_grows_stack sample_toUTCString
                sample_parseDate reentrant_bodies 0
                {| p_mode := None; p_preset := Some brutalist |} Done
                sample_world eq_refl eq_refl
                {| p_mode := Some dark; p_preset := None |} Done)
    as [Hgrow Hnone].
  split; [apply (Hgrow 500) | apply (Hnone 1000)].
Defined.

Lemma setState_pass_is_bounded_witness :
  ∃ fuel w' evs,
    run sample_toUTCString sample_parseDate growing_bodies fuel
      (SetState (full DEFAULT_THEME_PREFERENCES) Done) meddled_world
    = Some w'
    ∧ trace w' = EState DEFAULT_THEME_PREFERENCES :: evs
    ∧ length (notified evs) ≤ 3.
Proof.
  apply (setState_pass_is_bounded sample_toUTCString sample_parseDate growing_bodies
           (full DEFAULT_THEME_PREFERENCES) meddled_world).
  intros [|l]; repeat constructor.
Defined.

(** ** More on the root element *)

Section RootElement.

Lemma classList_updateThemeMode tok m (e : Element) :
  tok ≠ "dark" →
  tok ∈ classList (updateThemeMode m e) ↔ tok ∈ classList e.
Proof.
  intros Hne. destruct m; simpl.
  - rewrite list_elem_of_filter. tauto.
  - destruct (decide ("dark" ∈ classList e)); [done|].
    rewrite elem_of_app, list_elem_of_singleton. tauto.
Qed.

Lemma dark_updateThemeMode m (e : Element) :
  "dark" ∈ classList (updateThemeMode m e) ↔ m = dark.
Proof.
  destruct m; simpl.
  - rewrite list_elem_of_filter. split; [tauto | done].
  - split; [done|]. intros _.
    destruct (decide ("dark" ∈ classList e)); [done|].
    apply elem_of_app. right. by left.
Qed.

(** X5: [updateTheme] touches nothing but the class [dark] and the attribute
    [data-theme-preset]: every other class and every other attribute of
    the root element is as before. *)
Theorem updateTheme_frame (p : ThemePreferences) (html : Element)
    (tok name : string) :
  tok ≠ "dark" → name ≠ "data-theme-preset" →
  (tok ∈ classList (updateTheme p html) ↔ tok ∈ classList html)
  ∧ getAttribute name (updateTheme p html) = getAttribute name html.
Proof.
  intros Htok Hname. split.
  - change (classList (updateTheme p html))
      with (classList (updateThemeMode (mode p) html)).
    by apply classList_updateThemeMode.
  - unfold updateTheme, updateThemePreset, getAttribute, setAttribute.
    simpl. rewrite lookup_insert_ne by done. by destruct (mode p).
Qed.

Lemma updateTheme_frame_witness :
  let html := mkElement ["overflow-hidden"] {["lang" := "en"]} in
  ("overflow-hidden" ∈ classList (updateTheme (mkPrefs dark tangerine) html)
   ↔ "overflow-hidden" ∈ classList html)
  ∧ getAttribute "lang" (updateTheme (mkPrefs dark tangerine) html)
    = getAttribute "lang" html.
Proof.
  apply (updateTheme_frame (mkPrefs dark tangerine)
           (mkElement ["overflow-hidden"] {["lang" := "en"]})
           "overflow-hidden" "lang"); discriminate.
Defined.

(** X6: The last [updateTheme] wins: after two updates the root element has
    the classes and the attributes it would have after the second alone
    (the order of the classes may differ). *)
Theorem updateTheme_last_write_wins (p q : ThemePreferences)
    (html : Element) (tok : string) :
  (tok ∈ classList (updateTheme q (updateTheme p html))
   ↔ tok ∈ classList (updateTheme q html))
  ∧ attributes (updateTheme q (updateTheme p html))
    = attributes (updateTheme q html).
Proof.
  split.
  - change (classList (updateTheme q (updateTheme p html)))
      with (classList (updateThemeMode (mode q) (updateTheme p html))).
    change (classList (updateTheme q html))
      with (classList (updateThemeMode (mode q) html)).
    destruct (decide (tok = "dark")) as [->|Hne].
    + by rewrite !dark_updateThemeMode.
    + rewrite !classList_updateThemeMode by done.
      change (classList (updateTheme p html))
        with (classList (updateThemeMode (mode p) html)).
      by rewrite classList_updateThemeMode.
  - unfold updateTheme, updateThemePreset, setAttribute. simpl.
    replace (attributes (updateThemeMode (mode q)
               {| classList := classList (updateThemeMode (mode p) html);
                  attributes := <["data-theme-preset":=preset_str (preset p)]>
                                  (attributes (updateThemeMode (mode p) html))
               |}))
      with (<["data-theme-preset":=preset_str (preset p)]> (attributes html))
      by (by destruct (mode q), (mode p)).
    replace (attributes (updateThemeMode (mode q) html))
      with (attributes html) by (by destruct (mode q)).
    apply insert_insert_eq.
Qed.

End RootElement.

(** ** More on the cookie codec *)

Section CookieMore.

Variable toUTCString : Z → string.
Variable parseDate : string → option Z.

Lemma token_char_not c a : token_char c = false → token_char a = true → a ≠ c.
Proof. intros Hc Ha ->. congruence. Qed.

Lemma cookie_value_safe_has_char c v :
  token_char c = false → cookie_value_safe v = true →
  Str.has_char c v = false.
Proof.
  intros Hc. unfold cookie_value_safe.
  induction v as [|a v IH]; [intros _; apply has_char_empty|].
  cbn [String.list_ascii_of_string forallb].
  intros [Ha Hv]%andb_true_iff. apply has_char_cons.
  split; [by eapply token_char_not | by apply IH].
Qed.

Lemma cookie_value_safe_trim v :
  cookie_value_safe v = true → CookieJar.trim v = v.
Proof.
  intros Hv. apply trim_no_wsp; by apply cookie_value_safe_has_char.
Qed.

Lemma cookie_name_safe_spec n :
  cookie_name_safe n = true →
  Str.has_char ";" n = false ∧ Str.has_char "=" n = false
  ∧ String.get 0 n ≠ Some " "%char ∧ CookieJar.trim n = n.
Proof.
  unfold cookie_name_safe.
  rewrite !andb_true_iff, !negb_true_iff. intros [[Hv He] _].
  split; [by apply cookie_value_safe_has_char|]. split; [done|].
  split; [|by apply cookie_value_safe_trim].
  destruct n as [|a n]; [done|]. simpl. intros [= ->].
  pose proof (cookie_value_safe_has_char " " _ eq_refl Hv) as H.
  by apply has_char_cons in H as [H _].
Qed.

Lemma getValueFromCookie_lookup d name :
  Str.has_char "=" name = false → CookieJar.jar_ok (cookies d) = true →
  getValueFromCookie (Some d) name = CookieJar.lookup name (cookies d).
Proof. intros. by apply readCookie_header. Qed.

(** X7: A cookie written with a cookie-safe name and value and at least
    one day to live, into a store that holds no cookie of that name under
    another domain or path, reads back as written; every other cookie
    reads as before, and the root element is not touched. *)
Theorem setValueToCookie_roundtrip (now : Z) (name value : string)
    (days : Z) (d : Document) :
  dates_ok toUTCString parseDate →
  (0 < days)%Z →
  CookieJar.jar_ok (cookies d) = true →
  CookieJar.unshadowed name (cookies d) = true →
  cookie_name_safe name = true → cookie_value_safe value = true →
  let d' := setValueToCookie toUTCString parseDate now name value days d in
  getValueFromCookie (Some d') name = Some value
  ∧ (∀ other, other ≠ name → Str.has_char "=" other = false →
       getValueFromCookie (Some d') other = getValueFromCookie (Some d) other)
  ∧ CookieJar.jar_ok (cookies d') = true
  ∧ documentElement d' = documentElement d.
Proof.
  intros Hdates Hdays Hok Hun Hname Hvalue d'.
  destruct (cookie_name_safe_spec _ Hname) as (Hn1 & Hn2 & Hn3 & Hn4).
  pose proof (cookie_value_safe_has_char ";" _ eq_refl Hvalue) as Hv.
  pose proof (cookie_value_safe_trim _ Hvalue) as Hvt.
  assert (CookieJar.jar_ok (cookies d') = true) as Hok'
    by by apply setValueToCookie_jar_ok.
  split; [|split; [|done]].
  - rewrite getValueFromCookie_lookup by done.
    unfold d'. rewrite setValueToCookie_stored by done.
    set (c := CookieJar.mkCookie name value "" "/" _).
    apply (lookup_store_same c). intros c' Hc' Hn.
    apply same_key_spec.
    destruct (unshadowed_spec _ _ c' Hun Hc' Hn) as [-> ->]. done.
  - intros other Hne Hother.
    rewrite !getValueFromCookie_lookup by done.
    by apply setValueToCookie_other.
Qed.

(** X8: [saveThemePreferences] writes the two theme cookies and nothing else:
    any other cookie reads as before, and the root element is not
    touched. *)
Theorem saveThemePreferences_keeps_other_cookies (now : Z)
    (p : ThemePreferences) (d : Document) (other : string) :
  CookieJar.jar_ok (cookies d) = true →
  other ≠ "theme-mode" → other ≠ "theme-preset" →
  Str.has_char "=" other = false →
  let d' := saveThemePreferences toUTCString parseDate now p d in
  getValueFromCookie (Some d') other = getValueFromCookie (Some d) other
  ∧ documentElement d' = documentElement d.
Proof.
  intros Hok H1 H2 Hother d'. split; [|done].
  rewrite !getValueFromCookie_lookup
    by (done || by apply saveThemePreferences_jar_ok).
  by apply saveThemePreferences_other.
Qed.

Lemma loadThemePreferences_lookup d :
  CookieJar.jar_ok (cookies d) = true →
  loadThemePreferences (Some d)
  = {| l_mode := or_else (CookieJar.lookup "theme-mode" (cookies d)) "light";
       l_preset :=
         or_else (CookieJar.lookup "theme-preset" (cookies d)) "default" |}.
Proof.
  intros Hok. unfold loadThemePreferences.
  by rewrite !getValueFromCookie_lookup.
Qed.

(** X9: Without a document [loadThemePreferences] returns the defaults. With
    one, each field comes from the first cookie of its name in the order
    the getter lists them: a missing or empty cookie gives the default of
    the field, and any other text is returned as it is, valid or not. *)
Theorem loadThemePreferences_defaults_and_passthrough (d : Document) :
  CookieJar.jar_ok (cookies d) = true →
  loadThemePreferences None = loaded_of DEFAULT_THEME_PREFERENCES
  ∧ (CookieJar.lookup "theme-mode" (cookies d) = None
     ∨ CookieJar.lookup "theme-mode" (cookies d) = Some "" →
     l_mode (loadThemePreferences (Some d)) = "light")
  ∧ (CookieJar.lookup "theme-preset" (cookies d) = None
     ∨ CookieJar.lookup "theme-preset" (cookies d) = Some "" →
     l_preset (loadThemePreferences (Some d)) = "default")
  ∧ (∀ v, v ≠ "" → CookieJar.lookup "theme-mode" (cookies d) = Some v →
       l_mode (loadThemePreferences (Some d)) = v)
  ∧ (∀ v, v ≠ "" → CookieJar.lookup "theme-preset" (cookies d) = Some v →
       l_preset (loadThemePreferences (Some d)) = v).
Proof.
  intros Hok. rewrite loadThemePreferences_lookup by done. simpl.
  split; [done|].
  split; [by intros [-> | ->]|]. split; [by intros [-> | ->]|].
  split; intros v Hv ->; by destruct v.
Qed.

End CookieMore.

Lemma setValueToCookie_roundtrip_witness :
  let d := mkDocument (mkElement [] ∅)
             [CookieJar.mkCookie "session" "abc" "" "/" None;
              CookieJar.mkCookie "sidebar" "open" "" "/" None] in
  let d' := setValueToCookie sample_toUTCString sample_parseDate 0
              "sidebar" "closed" 365 d in
  getValueFromCookie (Some d') "sidebar" = Some "closed"
  ∧ (∀ other, other ≠ "sidebar" → Str.has_char "=" other = false →
       getValueFromCookie (Some d') other = getValueFromCookie (Some d) other)
  ∧ CookieJar.jar_ok (cookies d') = true
  ∧ documentElement d' = documentElement d.
Proof.
  apply (setValueToCookie_roundtrip sample_toUTCString sample_parseDate 0
           "sidebar" "closed" 365
           (mkDocument (mkElement [] ∅)
              [CookieJar.mkCookie "session" "abc" "" "/" None;
               CookieJar.mkCookie "sidebar" "open" "" "/" None]));
    [exact sample_dates_ok | reflexivity..].
Defined.

Lemma saveThemePreferences_keeps_other_cookies_witness :
  let d := mkDocument (mkElement [] ∅)
             [CookieJar.mkCookie "session" "abc" "" "/" None] in
  let d' := saveThemePreferences sample_toUTCString sample_parseDate 0
              (mkPrefs dark brutalist) d in
  getValueFromCookie (Some d') "session" = getValueFromCookie (Some d) "session"
  ∧ documentElement d' = documentElement d.
Proof.
  apply (saveThemePreferences_keeps_other_cookies sample_toUTCString
           sample_parseDate 0
           (mkPrefs dark brutalist)
           (mkDocument (mkElement [] ∅)
              [CookieJar.mkCookie "session" "abc" "" "/" None]) "session");
    (reflexivity || discriminate).
Defined.

Lemma loadThemePreferences_defaults_and_passthrough_witness :
  let d := mkDocument (mkElement [] ∅)
             [CookieJar.mkCookie "theme-mode" "purple" "" "/" None;
              CookieJar.mkCookie "theme-preset" "" "" "/" None] in
  l_mode (loadThemePreferences (Some d)) = "purple"
  ∧ l_preset (loadThemePreferences (Some d)) = "default".
Proof.
  intros d.
  pose proof (loadThemePreferences_defaults_and_passthrough d eq_refl)
    as (_ & _ & H3 & H4 & _).
  split.
  - apply H4; [discriminate | reflexivity].
  - apply H3. right. reflexivity.
Defined.

(** ** The server-rendered root element *)

Lemma Layout_updateTheme_id (p : ThemePreferences) :
  updateTheme p (Server.Layout (loaded_of p)) = Server.Layout (loaded_of p).
Proof.
  unfold updateTheme, updateThemePreset, setAttribute, Server.Layout.
  destruct p as [[] ps]; simpl; f_equal; apply insert_insert_eq.
Qed.

(** X10: The [<html>] element the layout renders for preferences [p] has the
    class and the attribute that [updateTheme p] would give it, so that
    applying [updateTheme p] to it at hydration changes nothing. For light
    preferences its class is [light], which no later [updateTheme]
    removes. *)
Theorem Layout_matches_updateTheme (p q : ThemePreferences) :
  let html := Server.Layout (loaded_of p) in
  classList html = [mode_str (mode p)]
  ∧ (classList_contains "dark" html = true ↔ mode p = dark)
  ∧ getAttribute "data-theme-preset" html = Some (preset_str (preset p))
  ∧ updateTheme p html = html
  ∧ "light" ∈ classList
                (updateTheme q
                   (Server.Layout (loaded_of (mkPrefs light (preset p))))).
Proof.
  intros html. split; [by destruct p as [[] ?]|].
  split; [by destruct p as [[] ?]|]. split; [done|]. split.
  - apply Layout_updateTheme_id.
  - apply classList_updateThemeMode; [done|]. by left.
Qed.

(** ** A provider session *)

Section Session.

Variable toUTCString : Z → string.
Variable parseDate : string → option Z.
Variable bodies : Listener → Prog.

#[local] Abbreviation mrun := (run toUTCString parseDate bodies).
#[local] Abbreviation mnotify_all := (notify_all toUTCString parseDate bodies).

Lemma spread_full s p : spread s (full p) = p.
Proof. by destruct p. Qed.

(** X11: The mount effect on a store without listeners returns with the store
    holding [initialPreferences], the provider hydrated and subscribed
    once, and the root element updated; it writes no cookie; and when the
    root element is the one the server rendered for the same preferences,
    it leaves it as it is. *)
Theorem mount_effect_applies_without_saving
    (initialPreferences : ThemePreferences) (cb : Listener) (w : World) :
  listeners w = [] →
  ∃ fuel w',
    mrun fuel (PreferencesProvider.effect initialPreferences cb) w = Some w'
    ∧ state w' = initialPreferences
    ∧ listeners w' = [cb]
    ∧ provider w' = mkProvider initialPreferences true
    ∧ documentElement (document w')
      = updateTheme initialPreferences (documentElement (document w))
    ∧ cookies (document w') = cookies (document w)
    ∧ (documentElement (document w)
       = Server.Layout (loaded_of initialPreferences) →
       documentElement (document w') = documentElement (document w)).
Proof.
  intros Hls. destruct w as [s ls d pr now tr]. simpl in Hls. subst ls.
  exists 7. eexists. split; [reflexivity|]. simpl.
  rewrite spread_full. repeat split; try done.
  intros ->. apply Layout_updateTheme_id.
Qed.

(** X12: When the effect runs again (its cleanup, then the effect with new
    initial preferences) in a session whose only listener is the
    provider's, the store and the root element take the new preferences
    and exactly one subscription remains, but no cookie is written: the
    cookies still hold what was saved last. *)
Theorem effect_rerun_resets_without_saving
    (initialPreferences : ThemePreferences) (cb cb' : Listener) (w : World) :
  listeners w = [cb] →
  ∃ fuel1 w1 fuel2 w2,
    mrun fuel1 (PreferencesProvider.cleanup cb) w = Some w1
    ∧ mrun fuel2 (PreferencesProvider.effect initialPreferences cb') w1
      = Some w2
    ∧ state w2 = initialPreferences
    ∧ listeners w2 = [cb']
    ∧ provider w2 = mkProvider initialPreferences true
    ∧ documentElement (document w2)
      = updateTheme initialPreferences (documentElement (document w))
    ∧ cookies (document w2) = cookies (document w).
Proof.
  intros Hls. destruct w as [s ls d pr now tr]. simpl in Hls. subst ls.
  exists 2. eexists. exists 7. eexists.
  split; [reflexivity|]. simpl. unfold unsubscribe. simpl.
  rewrite decide_True by done. simpl.
  split; [reflexivity|]. simpl. rewrite spread_full. done.
Qed.

End Session.

Section SessionInvariant.

Variable toUTCString : Z → string.
Variable parseDate : string → option Z.
Variable bodies : Listener → Prog.

#[local] Abbreviation mrun := (run toUTCString parseDate bodies).
#[local] Abbreviation mnotify_all := (notify_all toUTCString parseDate bodies).

Lemma load_after_save now p d :
  dates_ok toUTCString parseDate →
  CookieJar.jar_ok (cookies d) = true →
  CookieJar.unshadowed "theme-mode" (cookies d) = true →
  CookieJar.unshadowed "theme-preset" (cookies d) = true →
  loadThemePreferences
    (Some (saveThemePreferences toUTCString parseDate now p d))
  = loaded_of p.
Proof.
  intros Hdates Hok Hm Hp.
  destruct (saveThemePreferences_lookup toUTCString parseDate now p d
              Hdates Hm Hp) as (Hlm & Hlp & _).
  rewrite loadThemePreferences_lookup
    by by apply saveThemePreferences_jar_ok.
  rewrite Hlm, Hlp. by destruct p as [[] []].
Qed.

Lemma notify_all_document ls w :
  dates_ok toUTCString parseDate →
  (∀ l, bodies l = PreferencesProvider.subscription) →
  ls ≠ [] →
  CookieJar.jar_ok (cookies (document w)) = true →
  CookieJar.unshadowed "theme-mode" (cookies (document w)) = true →
  CookieJar.unshadowed "theme-preset" (cookies (document w)) = true →
  ∃ d, CookieJar.jar_ok (cookies d) = true
       ∧ CookieJar.unshadowed "theme-mode" (cookies d) = true
       ∧ CookieJar.unshadowed "theme-preset" (cookies d) = true
       ∧ document (mnotify_all ls w)
         = saveThemePreferences toUTCString parseDate (clock w) (state w)
             (mkDocument (updateTheme (state w) (documentElement d))
                (cookies d)).
Proof.
  intros Hdates Hb. revert w.
  induction ls as [|l ls IH]; intros w Hne Hok Hm Hp; [done|].
  rewrite notify_all_cons, Hb, direct_subscription.
  destruct ls as [|l' ls].
  - exists (document w). done.
  - edestruct IH as (d & Hd & Hdm & Hdp & ->); [done | | | |].
    + simpl. by apply saveThemePreferences_jar_ok.
    + simpl.
      by apply (saveThemePreferences_lookup toUTCString parseDate
                  (clock w) (state w)
                  (mkDocument
                     (updateTheme (state w) (documentElement (document w)))
                     (cookies (document w)))).
    + simpl.
      by apply (saveThemePreferences_lookup toUTCString parseDate
                  (clock w) (state w)
                  (mkDocument
                     (updateTheme (state w) (documentElement (document w)))
                     (cookies (document w)))).
    + simpl. by exists d.
Qed.

(** X13: In a session whose listeners are the provider's subscription, on a
    well-formed cookie store that holds no theme cookie under another
    domain or path, with dates the browser reads back, every [setState]
    returns with the provider, the root element and the cookies in step
    with the store: the provider's [preferences] are the state, the root
    element has class [dark] exactly when the mode is dark and the preset
    as its attribute, and the cookies load back as the state; and the
    cookie store is again as the next [setState] needs it. *)
Theorem session_stays_consistent (ns : PartialPreferences) (w : World) :
  dates_ok toUTCString parseDate →
  (∀ l, bodies l = PreferencesProvider.subscription) →
  listeners w ≠ [] →
  CookieJar.jar_ok (cookies (document w)) = true →
  CookieJar.unshadowed "theme-mode" (cookies (document w)) = true →
  CookieJar.unshadowed "theme-preset" (cookies (document w)) = true →
  ∃ fuel w',
    mrun fuel (SetState ns Done) w = Some w'
    ∧ state w' = spread (state w) ns
    ∧ listeners w' = listeners w
    ∧ preferences (provider w') = state w'
    ∧ (classList_contains "dark" (documentElement (document w')) = true
       ↔ mode (state w') = dark)
    ∧ getAttribute "data-theme-preset" (documentElement (document w'))
      = Some (preset_str (preset (state w')))
    ∧ loadThemePreferences (Some (document w')) = loaded_of (state w')
    ∧ CookieJar.jar_ok (cookies (document w')) = true
    ∧ CookieJar.unshadowed "theme-mode" (cookies (document w')) = true
    ∧ CookieJar.unshadowed "theme-preset" (cookies (document w')) = true.
Proof.
  intros Hdates Hb Hls Hok Hm Hp.
  assert (∀ l, Quiet (bodies l)) as Hq
    by (intros l; rewrite Hb; apply Quiet_subscription).
  destruct (setState_done_quiet toUTCString parseDate bodies Hq ns w)
    as [fuel Hrun].
  eexists fuel, _. split; [exact Hrun|].
  set (s := spread (state w) ns).
  set (w0 := log (EState s) (with_state s w)).
  destruct (notify_all_store toUTCString parseDate bodies (listeners w) w0)
    as (Hs & Hl & _).
  destruct (notify_all_document (listeners w) w0 Hdates Hb Hls Hok Hm Hp)
    as (d & Hd & Hdm & Hdp & Hdoc).
  rewrite Hs, Hl, Hdoc, (notify_all_provider toUTCString parseDate bodies)
    by done.
  change (state w0) with s. change (listeners w0) with (listeners w).
  set (d0 := mkDocument (updateTheme s (documentElement d)) (cookies d)).
  destruct (saveThemePreferences_lookup toUTCString parseDate (clock w0) s
              d0 Hdates Hdm Hdp) as (_ & _ & Hm' & Hp').
  split; [done|]. split; [done|]. split; [by destruct (listeners w)|].
  split.
  { unfold classList_contains. rewrite bool_decide_eq_true.
    apply (dark_updateThemeMode (mode s)). }
  split; [apply lookup_insert_eq|].
  split; [by apply load_after_save|].
  split; [by apply saveThemePreferences_jar_ok|]. done.
Qed.

(** X14: [ThemeSwitcher] cannot render under a provider that is not hydrated:
    the hook it calls throws. Under a hydrated provider in step with the
    store it renders a button labelled with the other mode, moon for
    light and sun for dark, and a click puts the store in the mode the
    label named, leaving the preset. *)
Theorem ThemeSwitcher_label_names_target
    (initialPreferences : ThemePreferences) (w : World) :
  (∀ l, bodies l = PreferencesProvider.subscription) →
  listeners w ≠ [] →
  provider w = mkProvider (state w) true →
  ThemeSwitcher.ThemeSwitcher
    (PreferencesProvider.useContext None
       (PreferencesProvider.render
          (PreferencesProvider.initialState initialPreferences)))
  = Thrown "usePreferences must be used within a PreferencesProvider"
  ∧ ∃ b fuel w',
      ThemeSwitcher.ThemeSwitcher
        (PreferencesProvider.useContext None
           (PreferencesProvider.render (provider w))) = Returned b
      ∧ ThemeSwitcher.icon b
        = match mode (state w) with
          | light => ThemeSwitcher.MoonIcon
          | dark => ThemeSwitcher.SunIcon
          end
      ∧ ThemeSwitcher.title b = ThemeSwitcher.aria_label b
      ∧ mrun fuel (ThemeSwitcher.onClick b) w = Some w'
      ∧ ThemeSwitcher.aria_label b
        = "Switch to " +:+ mode_str (mode (state w')) +:+ " mode"
      ∧ mode (state w') ≠ mode (state w)
      ∧ preset (state w') = preset (state w).
Proof.
  intros Hb Hls Hp. split; [done|].
  destruct (toggleTheme_run toUTCString parseDate bodies w Hb Hls)
    as (fuel & w' & Hrun & Hs & _).
  rewrite Hp in *. simpl in *.
  eexists _, fuel, w'. split; [reflexivity|]. simpl.
  rewrite Hs. simpl. unfold ThemeSwitcher.label.
  split; [by destruct (mode (state w))|]. split; [done|].
  split; [exact Hrun|].
  by destruct (mode (state w)).
Qed.

End SessionInvariant.

(** ** The hamburger menu *)

Section Hamburger.

Lemma classList_toggle_spec tok tok' b (e : Element) :
  (tok' ∈ classList (Header.classList_toggle tok b e)
   ↔ if decide (tok' = tok) then b = true else tok' ∈ classList e)
  ∧ attributes (Header.classList_toggle tok b e) = attributes e.
Proof.
  unfold Header.classList_toggle. destruct b; simpl; (split; [|done]).
  - destruct (decide (tok ∈ classList e)) as [Hin|Hnot];
      destruct (decide (tok' = tok)) as [->|Hne]; try done.
    + split; [done|]. intros _. apply elem_of_app. right. by left.
    + rewrite elem_of_app, list_elem_of_singleton. tauto.
  - rewrite list_elem_of_filter.
    destruct (decide (tok' = tok)) as [->|Hne]; [split; [tauto|done]|tauto].
Qed.

Lemma reacts_snoc st evs ev :
  Header.reacts st (evs ++ [ev]) = Header.react (Header.reacts st evs) ev.
Proof. unfold Header.reacts. by rewrite foldl_app. Qed.

(** X15: Whatever the sequence of clicks, resizes and orientation changes after
    mount, the root element has class [overflow-hidden] exactly when the
    menu is open, the menu is open exactly when the number of clicks since
    the last resize or orientation change is odd, and no other class or
    attribute of the root element is touched. *)
Theorem hamburger_menu_locks_scroll (html : Element)
    (evs : list Header.Event) :
  let st := Header.reacts (Header.mount (Some html)) evs in
  st.1 = Nat.odd (Header.clicks_since_reset (rev evs))
  ∧ ∃ e, st.2 = Some e
         ∧ ("overflow-hidden" ∈ classList e ↔ st.1 = true)
         ∧ (∀ tok, tok ≠ "overflow-hidden" →
              tok ∈ classList e ↔ tok ∈ classList html)
         ∧ attributes e = attributes html.
Proof.
  induction evs as [|ev evs IH] using rev_ind.
  - simpl. split; [done|]. eexists. split; [reflexivity|].
    split; [|split; [|done]].
    + simpl. rewrite list_elem_of_filter. split; [tauto | done].
    + intros tok Hne. simpl. rewrite list_elem_of_filter. tauto.
  - rewrite reacts_snoc, rev_app_distr.
    cbn [rev app] in *. cbv zeta in IH.
    destruct (Header.reacts (Header.mount (Some html)) evs) as [isOpen el].
    destruct IH as (Hopen & e & Hel & Hlock & Hother & Hattr).
    cbn [fst snd] in *. subst el.
    assert (Header.handle ev isOpen
            = Nat.odd (Header.clicks_since_reset (ev :: rev evs))) as Hh.
    { destruct ev; cbn [Header.handle Header.clicks_since_reset]; [|done..].
      rewrite Hopen, Nat.odd_succ, <- Nat.negb_odd. done. }
    unfold Header.react. cbn [fst snd]. rewrite <- Hh.
    destruct (decide (Header.handle ev isOpen = isOpen)) as [Heq|Hne];
      cbn [fst snd Header.lockScroll].
    + split; [done|]. exists e. rewrite Heq. done.
    + split; [done|]. eexists. split; [reflexivity|].
      split; [|split].
      * rewrite (proj1 (classList_toggle_spec _ _ _ _)).
        by rewrite decide_True.
      * intros tok Htok. rewrite (proj1 (classList_toggle_spec _ _ _ _)).
        rewrite decide_False by done. by apply Hother.
      * by rewrite (proj2 (classList_toggle_spec _ "" _ _)).
Qed.

End Hamburger.

(** ** Concrete sessions *)

Lemma mount_effect_applies_without_saving_witness :
  let w := PreferencesStore.initial
             (mkDocument (Server.Layout (loaded_of (mkPrefs dark brutalist)))
                [CookieJar.mkCookie "theme-mode" "dark" "" "/" None;
                 CookieJar.mkCookie "theme-preset" "brutalist" "" "/" None])
             (PreferencesProvider.initialState (mkPrefs dark brutalist)) 0 in
  ∃ fuel w',
    run sample_toUTCString sample_parseDate sample_bodies fuel
      (PreferencesProvider.effect (mkPrefs dark brutalist) 0) w = Some w'
    ∧ state w' = mkPrefs dark brutalist
    ∧ listeners w' = [0]
    ∧ provider w' = mkProvider (mkPrefs dark brutalist) true
    ∧ documentElement (document w')
      = updateTheme (mkPrefs dark brutalist) (documentElement (document w))
    ∧ cookies (document w') = cookies (document w)
    ∧ (documentElement (document w)
       = Server.Layout (loaded_of (mkPrefs dark brutalist)) →
       documentElement (document w') = documentElement (document w)).
Proof.
  intros w.
  apply (mount_effect_applies_without_saving sample_toUTCString sample_parseDate sample_bodies
           (mkPrefs dark brutalist) 0 w).
  reflexivity.
Defined.

Lemma effect_rerun_resets_without_saving_witness :
  ∃ fuel1 w1 fuel2 w2,
    run sample_toUTCString sample_parseDate sample_bodies fuel1
      (PreferencesProvider.cleanup 0) sample_world = Some w1
    ∧ run sample_toUTCString sample_parseDate sample_bodies fuel2
        (PreferencesProvider.effect (mkPrefs dark tangerine) 1) w1 = Some w2
    ∧ state w2 = mkPrefs dark tangerine
    ∧ listeners w2 = [1]
    ∧ provider w2 = mkProvider (mkPrefs dark tangerine) true
    ∧ documentElement (document w2)
      = updateTheme (mkPrefs dark tangerine)
          (documentElement (document sample_world))
    ∧ cookies (document w2) = cookies (document sample_world).
Proof.
  apply (effect_rerun_resets_without_saving sample_toUTCString sample_parseDate sample_bodies
           (mkPrefs dark tangerine) 0 1 sample_world).
  reflexivity.
Defined.

Lemma session_stays_consistent_witness :
  ∃ fuel w',
    run sample_toUTCString sample_parseDate sample_bodies fuel
      (SetState {| p_mode := Some dark; p_preset := None |} Done)
      sample_world = Some w'
    ∧ state w' = mkPrefs dark default
    ∧ listeners w' = [0]
    ∧ preferences (provider w') = state w'
    ∧ (classList_contains "dark" (documentElement (document w')) = true
       ↔ mode (state w') = dark)
    ∧ getAttribute "data-theme-preset" (documentElement (document w'))
      = Some (preset_str (preset (state w')))
    ∧ loadThemePreferences (Some (document w')) = loaded_of (state w')
    ∧ CookieJar.jar_ok (cookies (document w')) = true
    ∧ CookieJar.unshadowed "theme-mode" (cookies (document w')) = true
    ∧ CookieJar.unshadowed "theme-preset" (cookies (document w')) = true.
Proof.
  apply (session_stays_consistent sample_toUTCString sample_parseDate
           sample_bodies
           {| p_mode := Some dark; p_preset := None |} sample_world);
    [exact sample_dates_ok | reflexivity | discriminate | reflexivity..].
Defined.

Lemma ThemeSwitcher_label_names_target_witness :
  ∃ b fuel w',
    ThemeSwitcher.ThemeSwitcher
      (PreferencesProvider.useContext None
         (PreferencesProvider.render (provider sample_world))) = Returned b
    ∧ ThemeSwitcher.icon b = ThemeSwitcher.MoonIcon
    ∧ ThemeSwitcher.title b = ThemeSwitcher.aria_label b
    ∧ run sample_toUTCString sample_parseDate sample_bodies fuel (ThemeSwitcher.onClick b)
        sample_world = Some w'
    ∧ ThemeSwitcher.aria_label b
      = "Switch to " +:+ mode_str (mode (state w')) +:+ " mode"
    ∧ mode (state w') ≠ light
    ∧ preset (state w') = default.
Proof.
  apply (proj2 (ThemeSwitcher_label_names_target sample_toUTCString sample_parseDate
                  sample_bodies DEFAULT_THEME_PREFERENCES sample_world
                  (λ _, eq_refl) ltac:(discriminate) eq_refl)).
Defined.
